(** * The outreach-email controller: a shallow embedding and its properties

    The development follows [server/controllers/emails.js].  JavaScript
    values of the JSON fragment are a data type; an [async] function is a
    tree of effects ([Prog]) whose nodes are the synchronous operations on
    the process-wide cache, the console and the response object, and the
    suspension points ([await]) at which an external service is called.
    A function that runs alone is executed against an oracle that answers
    its external calls ([exec]); the fan-out of [generateEmailController]
    is executed by an event loop driven by a schedule ([run]). *)

From Stdlib Require Import Ascii String.
From stdpp Require Import gmap strings list pretty.
From Equations Require Import Equations.

Set Warnings "-register-all".
Local Open Scope string_scope.
Local Open Scope list_scope.

(** ** JavaScript values (the fragment JSON can carry) *)

Module Js.

(** The values that JSON carries, and [undefined].  Numbers are the
    integers that JavaScript prints in plain decimal (below 10^21 in
    absolute value); a string stands for its UTF-8 encoding. *)
Inductive JsValue : Type :=
| JUndefined
| JNull
| JBool (b : bool)
| JNum (n : Z)
| JStr (s : string)
| JArr (items : list JsValue)
| JObj (fields : list (string * JsValue)).

Inductive JsError : Type :=
| TypeError (msg : string)
| Error (msg : string)
| ExternalError (detail : JsValue).

(** ToBoolean *)
Definition truthy (v : JsValue) : bool :=
  match v with
  | JUndefined | JNull => false
  | JBool b => b
  | JNum n => negb (n =? 0)%Z
  | JStr s => negb (String.eqb s "")
  | JArr _ | JObj _ => true
  end.

Fixpoint assoc (key : string) (fields : list (string * JsValue)) : option JsValue :=
  match fields with
  | [] => None
  | (k, v) :: rest => if String.eqb k key then Some v else assoc key rest
  end.

(** A pure step that may throw. *)
Definition and_then {A B : Type} (r : A + JsError) (f : A -> B + JsError) : B + JsError :=
  match r with
  | inl a => f a
  | inr e => inr e
  end.

Notation "'let?' x ':=' r 'in' q" := (and_then r (fun x => q))
  (at level 10, x name, r at level 100, q at level 200).

(** ToString, as a template literal applies it.  An object is printed
    by the [toString] it inherits, unless it has a key [toString] of its
    own: the value under such a key (JSON holds no function) cannot be
    called, [valueOf] gives back the object, and the conversion throws.
    An array prints its elements, [undefined] and [null] as nothing,
    separated by commas, and throws where an element does. *)
Fixpoint ToString (v : JsValue) : string + JsError :=
  match v with
  | JUndefined => inl "undefined"
  | JNull => inl "null"
  | JBool true => inl "true"
  | JBool false => inl "false"
  | JNum n => inl (pretty n)
  | JStr s => inl s
  | JArr items =>
      let? pieces :=
        (fix elements (l : list JsValue) : list string + JsError :=
           match l with
           | [] => inl []
           | x :: rest =>
               let? piece := match x with
                             | JUndefined | JNull => inl ""
                             | _ => ToString x
                             end in
               let? pieces := elements rest in
               inl (piece :: pieces)
           end) items in
      inl (String.concat "," pieces)
  | JObj fields =>
      match assoc "toString" fields with
      | Some _ => inr (TypeError "Cannot convert object to primitive value")
      | None => inl "[object Object]"
      end
  end.

(** Whether ToString gives a string, and the string it gives. *)
Definition stringable (v : JsValue) : bool :=
  match ToString v with
  | inl _ => true
  | inr _ => false
  end.

Definition string_of (v : JsValue) : string :=
  match ToString v with
  | inl s => s
  | inr _ => ""
  end.

(** [v.key] for a named property: a TypeError on [undefined] and [null],
    [undefined] where the property does not exist.  Arrays and strings
    have [length]; that of a string is counted here in bytes, which is
    zero exactly when the number of its code units is. *)
Definition get_prop (v : JsValue) (key : string) : JsValue + JsError :=
  match v with
  | JUndefined =>
      inr (TypeError ("Cannot read properties of undefined (reading '" +:+ key +:+ "')"))
  | JNull =>
      inr (TypeError ("Cannot read properties of null (reading '" +:+ key +:+ "')"))
  | JObj fields => inl (default JUndefined (assoc key fields))
  | JArr items =>
      inl (if String.eqb key "length" then JNum (Z.of_nat (length items)) else JUndefined)
  | JStr s =>
      inl (if String.eqb key "length" then JNum (Z.of_nat (String.length s)) else JUndefined)
  | JBool _ | JNum _ => inl JUndefined
  end.

(** [v[i]] for an index. *)
Definition get_index (v : JsValue) (i : nat) : JsValue + JsError :=
  match v with
  | JUndefined =>
      inr (TypeError ("Cannot read properties of undefined (reading '" +:+ pretty i +:+ "')"))
  | JNull =>
      inr (TypeError ("Cannot read properties of null (reading '" +:+ pretty i +:+ "')"))
  | JArr items => inl (default JUndefined (items !! i))
  | JStr s => inl (match String.get i s with
                   | Some c => JStr (String c "")
                   | None => JUndefined
                   end)
  | JObj fields => inl (default JUndefined (assoc (pretty i) fields))
  | JBool _ | JNum _ => inl JUndefined
  end.

Definition isArray (v : JsValue) : bool :=
  match v with JArr _ => true | _ => false end.

(** [v === 0] *)
Definition is_zero (v : JsValue) : bool :=
  match v with JNum 0 => true | _ => false end.

(** *** Strings *)

Definition LF : ascii := "010"%char.

(** [s.split(sep)] for a separator of one character. *)
Fixpoint split (sep : ascii) (s : string) : list string :=
  match s with
  | EmptyString => [EmptyString]
  | String c rest =>
      if Ascii.eqb c sep then EmptyString :: split sep rest
      else match split sep rest with
           | [] => [String c EmptyString]
           | seg :: segs => String c seg :: segs
           end
  end.

(** [s.includes(c)] for one character. *)
Fixpoint contains (c : ascii) (s : string) : bool :=
  match s with
  | EmptyString => false
  | String c' rest => Ascii.eqb c' c || contains c rest
  end.

(** [parts.join(sep)] *)
Definition join (sep : string) (parts : list string) : string :=
  String.concat sep parts.

(** [parts.slice(1)] *)
Definition slice1 {A} (parts : list A) : list A := drop 1 parts.

(** [isspace1], [isspace2] and [isspace3] recognise the UTF-8 encodings,
    of one, two and three bytes, of the code points that [trim] removes
    (WhiteSpace and LineTerminator). *)
Definition isspace1 (c : ascii) : bool :=
  let n := nat_of_ascii c in
  (Nat.leb 9 n && Nat.leb n 13) || Nat.eqb n 32.

Definition isspace2 (c1 c2 : ascii) : bool :=
  Nat.eqb (nat_of_ascii c1) 194 && Nat.eqb (nat_of_ascii c2) 160.

Definition isspace3 (c1 c2 c3 : ascii) : bool :=
  let n1 := nat_of_ascii c1 in
  let n2 := nat_of_ascii c2 in
  let n3 := nat_of_ascii c3 in
  (Nat.eqb n1 225 && Nat.eqb n2 154 && Nat.eqb n3 128)
  || (Nat.eqb n1 226 && Nat.eqb n2 128
      && ((Nat.leb 128 n3 && Nat.leb n3 138)
          || Nat.eqb n3 168 || Nat.eqb n3 169 || Nat.eqb n3 175))
  || (Nat.eqb n1 226 && Nat.eqb n2 129 && Nat.eqb n3 159)
  || (Nat.eqb n1 227 && Nat.eqb n2 128 && Nat.eqb n3 128)
  || (Nat.eqb n1 239 && Nat.eqb n2 187 && Nat.eqb n3 191).

(** Strips the leading white space; [sp2] and [sp3] are given as
    parameters so that the same function serves the reversed string. *)
Fixpoint strip (sp2 : ascii -> ascii -> bool) (sp3 : ascii -> ascii -> ascii -> bool)
    (s : string) : string :=
  match s with
  | EmptyString => EmptyString
  | String c1 r1 =>
      if isspace1 c1 then strip sp2 sp3 r1
      else match r1 with
           | EmptyString => s
           | String c2 r2 =>
               if sp2 c1 c2 then strip sp2 sp3 r2
               else match r2 with
                    | EmptyString => s
                    | String c3 r3 =>
                        if sp3 c1 c2 c3 then strip sp2 sp3 r3 else s
                    end
           end
  end.

Definition trimStart (s : string) : string := strip isspace2 isspace3 s.

Definition trimEnd (s : string) : string :=
  String.rev (strip (fun c1 c2 => isspace2 c2 c1)
                    (fun c1 c2 c3 => isspace3 c3 c2 c1) (String.rev s)).

(** [s.trim()] *)
Definition trim (s : string) : string := trimEnd (trimStart s).

(** [v.split(sep)] as a method call on any value. *)
Definition call_split (v : JsValue) (sep : ascii) : list string + JsError :=
  match v with
  | JStr s => inl (split sep s)
  | JUndefined => inr (TypeError "Cannot read properties of undefined (reading 'split')")
  | JNull => inr (TypeError "Cannot read properties of null (reading 'split')")
  | _ => inr (TypeError "content.split is not a function")
  end.

(** [v.trim()] as a method call on any value. *)
Definition call_trim (v : JsValue) : JsValue + JsError :=
  match v with
  | JStr s => inl (JStr (trim s))
  | JUndefined => inr (TypeError "Cannot read properties of undefined (reading 'trim')")
  | JNull => inr (TypeError "Cannot read properties of null (reading 'trim')")
  | _ => inr (TypeError "completion.choices[0].message.content.trim is not a function")
  end.

(** *** JSON.stringify *)

Definition hex_digit (n : nat) : ascii :=
  ascii_of_nat (if Nat.ltb n 10 then 48 + n else 87 + n).

Definition DQUOTE : ascii := "034"%char.
Definition BACKSLASH : ascii := "092"%char.

Definition json_escape (c : ascii) : string :=
  let n := nat_of_ascii c in
  if Nat.eqb n 34 then String BACKSLASH (String DQUOTE "")
  else if Nat.eqb n 92 then String BACKSLASH (String BACKSLASH "")
  else if Nat.eqb n 8 then String BACKSLASH "b"
  else if Nat.eqb n 12 then String BACKSLASH "f"
  else if Nat.eqb n 10 then String BACKSLASH "n"
  else if Nat.eqb n 13 then String BACKSLASH "r"
  else if Nat.eqb n 9 then String BACKSLASH "t"
  else if Nat.ltb n 32 then
    String BACKSLASH ("u00" +:+ String (hex_digit (n / 16)) (String (hex_digit (n mod 16)) ""))
  else String c "".

Fixpoint json_escape_all (s : string) : string :=
  match s with
  | EmptyString => EmptyString
  | String c rest => json_escape c +:+ json_escape_all rest
  end.

Definition json_quote (s : string) : string :=
  String DQUOTE (json_escape_all s +:+ String DQUOTE "").

(** [JSON.stringify(v)]; [None] is the result [undefined]. *)
Fixpoint json_stringify (v : JsValue) : option string :=
  match v with
  | JUndefined => None
  | JNull => Some "null"
  | JBool true => Some "true"
  | JBool false => Some "false"
  | JNum n => Some (pretty n)
  | JStr s => Some (json_quote s)
  | JArr items =>
      Some ("[" +:+ String.concat ","
                      (map (fun x => default "null" (json_stringify x)) items)
                +:+ "]")
  | JObj fields =>
      Some ("{" +:+ String.concat ","
                      (omap (fun kv => match json_stringify (snd kv) with
                                       | Some j => Some (json_quote (fst kv) +:+ ":" +:+ j)
                                       | None => None
                                       end) fields)
                +:+ "}")
  end.

End Js.

Import Js.

(** ** Effects *)

(** [process.env] *)
Record Env : Type := {
  OPENAI_API_KEY : option string;
  EMAIL_SENDER : option string;
  EMAIL_PASS : option string
}.

(** The three clients that the module creates when it is loaded. *)
Record OpenAI : Type := { apiKey : option string }.
Record AxiosInstance : Type := { baseURL : string; timeout : N }.
Record Transporter : Type := {
  service : string;
  auth_user : option string;
  auth_pass : option string
}.

(** A call to an external service: the points where the code awaits. *)
Inductive ExtCall : Type :=
| AxiosGet (instance : AxiosInstance) (url : string)
| ChatCompletionsCreate (client : OpenAI) (params : JsValue)
| SendMail (transport : Transporter) (mailOptions : JsValue).

Inductive Outcome : Type :=
| Resolved (v : JsValue)
| Rejected (e : JsError).

Inductive LogLevel : Type := LevelLog | LevelWarn | LevelError.

Record Line : Type := {
  level : LogLevel;
  message : string;
  attached : option JsError
}.

(** The operations that complete within the running turn. *)
Inductive SyncOp : Type :=
| CacheGet (key : string)
| CacheSet (key : string) (value : JsValue)
| Console (line : Line)
| Respond (status : N) (body : JsValue).

(** An [async] function body.  [Yield] is an [await] on a promise of the
    program itself (the body resumes in a later turn), [Await] an [await]
    on an external call, [All] the [await Promise.all(...)] of the promises
    of the listed bodies. *)
Inductive Prog : Type :=
| Ret (v : JsValue)
| Throw (e : JsError)
| Sync (op : SyncOp) (k : JsValue -> Prog)
| Yield (p : Prog)
| Await (call : ExtCall) (k : Outcome -> Prog)
| All (ps : list Prog) (k : Outcome -> Prog).

Fixpoint bind (p : Prog) (f : JsValue -> Prog) : Prog :=
  match p with
  | Ret v => f v
  | Throw e => Throw e
  | Sync op k => Sync op (fun a => bind (k a) f)
  | Yield q => Yield (bind q f)
  | Await call k => Await call (fun o => bind (k o) f)
  | All ps k => All ps (fun o => bind (k o) f)
  end.

(** [try { p } catch (error) { handler error }] *)
Fixpoint try_catch (p : Prog) (handler : JsError -> Prog) : Prog :=
  match p with
  | Ret v => Ret v
  | Throw e => handler e
  | Sync op k => Sync op (fun a => try_catch (k a) handler)
  | Yield q => Yield (try_catch q handler)
  | Await call k => Await call (fun o => try_catch (k o) handler)
  | All ps k => All ps (fun o => try_catch (k o) handler)
  end.

Declare Scope prog_scope.
Delimit Scope prog_scope with prog.
Bind Scope prog_scope with Prog.

Notation "'let*' x ':=' p 'in' q" := (bind p (fun x => q))
  (at level 10, x name, p at level 100, q at level 200) : prog_scope.
Notation "p ';;' q" := (bind p (fun _ => q))
  (at level 100, q at level 200, right associativity) : prog_scope.

Local Open Scope prog_scope.

Notation "'let?' x ':=' r 'in' q" := (and_then r (fun x => q))
  (at level 10, x name, r at level 100, q at level 200).

(** A substitution [${v}] of a template literal: the string of the
    value, or the exception of the conversion. *)
Definition template (r : string + JsError) (k : string -> Prog) : Prog :=
  match r with
  | inl s => k s
  | inr e => Throw e
  end.

Notation "'let!' x ':=' r 'in' q" := (template r (fun x => q))
  (at level 10, x name, r at level 100, q at level 200) : prog_scope.

Definition lift (r : JsValue + JsError) : Prog :=
  match r with
  | inl v => Ret v
  | inr e => Throw e
  end.

Definition settle (o : Outcome) : Prog :=
  match o with
  | Resolved v => Ret v
  | Rejected e => Throw e
  end.

(** [await call(...)] on an external service *)
Definition await (call : ExtCall) : Prog := Await call settle.

(** [await f(...)] on an [async] function of the program: its value, or
    its exception, reaches the caller one turn after [f] has finished. *)
Definition await_async (p : Prog) : Prog :=
  try_catch (let* v := p in Yield (Ret v)) (fun e => Yield (Throw e)).

Definition cache_get (key : string) : Prog := Sync (CacheGet key) Ret.
Definition cache_set (key : string) (value : JsValue) : Prog := Sync (CacheSet key value) Ret.
Definition console_log (msg : string) : Prog :=
  Sync (Console {| level := LevelLog; message := msg; attached := None |}) Ret.
Definition console_warn (msg : string) : Prog :=
  Sync (Console {| level := LevelWarn; message := msg; attached := None |}) Ret.
Definition console_error (msg : string) (error : JsError) : Prog :=
  Sync (Console {| level := LevelError; message := msg; attached := Some error |}) Ret.
(** [res.status(status).json(body)] *)
Definition respond (status : N) (body : JsValue) : Prog := Sync (Respond status body) Ret.

(** ** The state the effects act on *)

Record Response : Type := { status : N; json : JsValue }.

(** The part of the request that the controllers read. *)
Record Request : Type := { body : JsValue }.

Record World : Type := {
  cache : gmap string (JsValue * N);   (* key |-> value, expiration time *)
  clock : N;                           (* Date.now(), in milliseconds *)
  console : list Line;
  issued : list ExtCall;               (* the external calls, oldest first *)
  responses : list Response            (* what was sent on [res], oldest first *)
}.

(** [new NodeCache({ stdTTL: 3600 })] *)
Definition stdTTL : N := 3600.

(** Modelled from the spec: the cache is the node-cache package, which the
    repository only calls.  [get] yields the stored value, and [undefined]
    for a key that is missing or whose expiration lies in the past. *)
Definition NodeCache_get (key : string) (w : World) : JsValue :=
  match cache w !! key with
  | Some (v, expiration) => if (expiration <? clock w)%N then JUndefined else v
  | None => JUndefined
  end.

(** Modelled from the spec: the cache is the node-cache package, which the
    repository only calls.  [set] stores the value with the expiration
    now + TTL, over whatever the key held. *)
Definition NodeCache_set (key : string) (value : JsValue) (w : World) : World :=
  {| cache := <[key := (value, (clock w + stdTTL * 1000)%N)]> (cache w);
     clock := clock w;
     console := console w;
     issued := issued w;
     responses := responses w |}.

Definition write_console (line : Line) (w : World) : World :=
  {| cache := cache w; clock := clock w;
     console := console w ++ [line];
     issued := issued w; responses := responses w |}.

Definition send_response (r : Response) (w : World) : World :=
  {| cache := cache w; clock := clock w; console := console w;
     issued := issued w;
     responses := responses w ++ [r] |}.

Definition issue (call : ExtCall) (w : World) : World :=
  {| cache := cache w; clock := clock w; console := console w;
     issued := issued w ++ [call];
     responses := responses w |}.

Definition elapse (dt : N) (w : World) : World :=
  {| cache := cache w;
     clock := (clock w + dt)%N;
     console := console w; issued := issued w; responses := responses w |}.

Definition do_sync (op : SyncOp) (w : World) : World * JsValue :=
  match op with
  | CacheGet key => (w, NodeCache_get key w)
  | CacheSet key value => (NodeCache_set key value w, JBool true)
  | Console line => (write_console line w, JUndefined)
  | Respond st b => (send_response {| status := st; json := b |} w, JUndefined)
  end.

(** *** A body that runs alone *)

(** What the outside answers to the [n]-th external call of the process. *)
Record Reply : Type := { delay : N; outcome : Outcome }.
Definition Oracle : Type := nat -> ExtCall -> Reply.

(** Runs the body to its end, each external call answered by the oracle
    after the delay it gives.  The result is [Ret v] or [Throw e]; a body
    that forks ([All]) does not run alone and is left as it is. *)
Fixpoint exec (o : Oracle) (w : World) (p : Prog) : World * Prog :=
  match p with
  | Ret v => (w, Ret v)
  | Throw e => (w, Throw e)
  | Sync op k => let '(w', a) := do_sync op w in exec o w' (k a)
  | Yield q => exec o w q
  | Await call k =>
      let r := o (length (issued w)) call in
      exec o (elapse (delay r) (issue call w)) (k (outcome r))
  | All ps k => (w, All ps k)
  end.

(** *** A body that forks: the event loop *)

(** Runs the body within the current turn: through its synchronous
    operations up to the next suspension point.  An external call reached
    there is issued. *)
Fixpoint advance (w : World) (p : Prog) : World * Prog :=
  match p with
  | Sync op k => let '(w', a) := do_sync op w in advance w' (k a)
  | Await call k => (issue call w, Await call k)
  | _ => (w, p)
  end.

(** [ps.map(async ...)]: each body is started in turn and runs up to its
    first suspension point. *)
Fixpoint spawn (w : World) (ps : list Prog) : World * list Prog :=
  match ps with
  | [] => (w, [])
  | p :: rest =>
      let '(w1, t) := advance w p in
      let '(w2, ts) := spawn w1 rest in
      (w2, t :: ts)
  end.

(** The state of a request in flight: the controller body [main], waiting
    at its [All], and the bodies it has started. *)
Record Pool : Type := {
  world : World;
  main : Prog;
  tasks : list Prog
}.

Fixpoint first_thrown (ts : list Prog) : option JsError :=
  match ts with
  | [] => None
  | Throw e :: _ => Some e
  | _ :: rest => first_thrown rest
  end.

Fixpoint all_returned (ts : list Prog) : option (list JsValue) :=
  match ts with
  | [] => Some []
  | Ret v :: rest => cons v <$> all_returned rest
  | _ :: _ => None
  end.

(** The state of [Promise.all] over the tasks: rejected with the error of
    a task that has thrown, resolved with the array of all values once
    every task has returned, pending otherwise. *)
Definition joined (ts : list Prog) : option Outcome :=
  match first_thrown ts with
  | Some e => Some (Rejected e)
  | None => (fun vs => Resolved (JArr vs)) <$> all_returned ts
  end.

(** Resumes the controller body once its [Promise.all] has settled. *)
Definition rejoin (pl : Pool) : Pool :=
  match main pl with
  | All _ k =>
      match joined (tasks pl) with
      | Some o =>
          let '(w', m) := advance (world pl) (k o) in
          {| world := w'; main := m; tasks := tasks pl |}
      | None => pl
      end
  | _ => pl
  end.

(** The controller is called: its body runs up to its fork, which starts
    the tasks. *)
Definition boot (w : World) (p : Prog) : Pool :=
  let '(w1, m) := advance w p in
  match m with
  | All ps _ =>
      let '(w2, ts) := spawn w1 ps in
      rejoin {| world := w2; main := m; tasks := ts |}
  | _ => {| world := w1; main := m; tasks := [] |}
  end.

(** What the event loop does next: time passes, a task that waits on a
    promise of the program is resumed, or the external call that a task
    waits on completes. *)
Inductive Event : Type :=
| Elapse (dt : N)
| Resume (i : nat)
| Deliver (i : nat) (o : Outcome).

Definition continue (pl : Pool) (i : nat) (p : Prog) : Pool :=
  let '(w', t) := advance (world pl) p in
  rejoin {| world := w'; main := main pl; tasks := <[i := t]> (tasks pl) |}.

Definition step (ev : Event) (pl : Pool) : Pool :=
  match ev with
  | Elapse dt => {| world := elapse dt (world pl); main := main pl; tasks := tasks pl |}
  | Resume i =>
      match tasks pl !! i with
      | Some (Yield q) => continue pl i q
      | _ => pl
      end
  | Deliver i o =>
      match tasks pl !! i with
      | Some (Await _ k) => continue pl i (k o)
      | _ => pl
      end
  end.

Fixpoint run (evs : list Event) (pl : Pool) : Pool :=
  match evs with
  | [] => pl
  | ev :: rest => run rest (step ev pl)
  end.

(** ** The response helper *)

(** [sendResponse] of [utils/responseHandler.js]; [data] is [null] when
    the caller leaves it out. *)
Definition sendResponse (statusCode : N) (success message data : JsValue) : Prog :=
  respond statusCode (JObj [("success", success); ("message", message); ("data", data)]).

(** ** The controller module *)

Section Controllers.

Variable env : Env.

Definition openai : OpenAI := {| apiKey := OPENAI_API_KEY env |}.

Definition axiosInstance : AxiosInstance :=
  {| baseURL := "http://localhost:8080/api"; timeout := 5000 |}.

Definition transporter : Transporter :=
  {| service := "gmail"; auth_user := EMAIL_SENDER env; auth_pass := EMAIL_PASS env |}.

(** Fetch the company information, with caching and retries.  The
    default [retries = 3] is written out where the function is called.
    Every template literal converts [companyName] anew, inside the [try]
    block and inside the [catch] block. *)
Equations? fetchCompanyInfo (companyName : JsValue) (retries : Z) : Prog
  by wf (Z.to_nat retries) lt :=
fetchCompanyInfo companyName retries :=
  try_catch
    (let! name := ToString companyName in
     let* cachedInfo := cache_get ("company:" +:+ name) in
     if truthy cachedInfo then Ret cachedInfo else
     let! name := ToString companyName in
     let* response := await (AxiosGet axiosInstance ("/company?name=" +:+ name)) in
     let* companyInfo := lift (get_prop response "data") in
     let! name := ToString companyName in
     cache_set ("company:" +:+ name) companyInfo ;;
     Ret companyInfo)
    (fun error =>
       match decide (0 < retries)%Z with
       | left _ =>
           let! name := ToString companyName in
           console_warn ("Retrying fetch for company: " +:+ name
                         +:+ ". Attempts left: " +:+ pretty retries) ;;
           fetchCompanyInfo companyName (retries - 1)
       | right _ =>
           let! name := ToString companyName in
           console_error ("Failed to fetch company info for " +:+ name
                          +:+ " after retries:") error ;;
           Ret JNull
       end).
Proof. lia. Qed.

(** The text of the template literal, around its interpolations. *)
Definition prompt_text (email description companyName info : string) : string :=
  String LF "    Write a professional email to " +:+ email +:+ " about " +:+ description +:+ "."
  +:+ String LF "    Use the following company information about " +:+ companyName +:+ ": " +:+ info
  +:+ String LF "    The email should focus on how the company information about " +:+ companyName
  +:+ " (e.g., recent achievements, funding, market position, challenges, etc.) can help highlight the relevance and benefits of the description you are providing."
  +:+ String LF "    Emphasize how the description aligns with " +:+ companyName
  +:+ "'s current needs or goals and how it can help them achieve those goals faster or more effectively, based on their current situation."
  +:+ String LF "    Ensure the tone is professional, clear, and concise, and position the description as a valuable opportunity for "
  +:+ companyName +:+ "."
  +:+ String LF "    Keep the email under 150 words (it can be less, but should not exceed 150 words)."
  +:+ String LF "  ".

(** The template literal [prompt]: the substitutions are evaluated and
    converted to strings from left to right, and each may throw. *)
Definition prompt_for (recipient companyInfo : JsValue) : string + JsError :=
  let? email := get_prop recipient "email" in
  let? email := ToString email in
  let? description := get_prop recipient "description" in
  let? description := ToString description in
  let? companyName := get_prop recipient "companyName" in
  let? companyName := ToString companyName in
  inl (prompt_text email description companyName
         (if truthy companyInfo
          then default "undefined" (json_stringify companyInfo)
          else "No company information provided.")).

(** The argument of [openai.chat.completions.create]. *)
Definition completion_params (prompt : string) : JsValue :=
  JObj [("model", JStr "gpt-4o-mini");
        ("messages",
         JArr [JObj [("role", JStr "system");
                     ("content", JStr "You are a helpful assistant.")];
               JObj [("role", JStr "user"); ("content", JStr prompt)]])].

(** [completion.choices[0].message.content] *)
Definition completion_content (completion : JsValue) : JsValue + JsError :=
  let? choices := get_prop completion "choices" in
  let? choice := get_index choices 0 in
  let? message := get_prop choice "message" in
  get_prop message "content".

Definition generateEmailContent (recipient companyInfo : JsValue) : Prog :=
  try_catch
    (let! prompt := prompt_for recipient companyInfo in
     let* completion := await (ChatCompletionsCreate openai (completion_params prompt)) in
     let* content := lift (completion_content completion) in
     lift (call_trim content))
    (fun error =>
       let* email := lift (get_prop recipient "email") in
       let! email := ToString email in
       console_error ("Error generating email for " +:+ email +:+ ":") error ;;
       Throw (Error "Failed to generate email")).

(** The callback that [generateEmailController] maps over the recipients. *)
Definition emailPromise (recipient : JsValue) : Prog :=
  let* companyName := lift (get_prop recipient "companyName") in
  let* companyInfo := await_async (fetchCompanyInfo companyName 3) in
  let* content := await_async (generateEmailContent recipient companyInfo) in
  let* email := lift (get_prop recipient "email") in
  Ret (JObj [("email", email); ("content", content)]).

Definition generateEmailController (req : Request) : Prog :=
  let* recipients := lift (get_prop (body req) "recipients") in
  let* invalid :=
    (if negb (truthy recipients) then Ret (JBool true)
     else let* len := lift (get_prop recipients "length") in Ret (JBool (is_zero len))) in
  if truthy invalid then
    respond 400 (JObj [("error", JStr "Invalid request data")])
  else
    try_catch
      (let* emails :=
         match recipients with
         | JArr items => All (map emailPromise items) settle
         | _ => Throw (TypeError "recipients.map is not a function")
         end in
       respond 200 (JObj [("emails", emails)]))
      (fun error =>
         console_error "Error generating emails:" error ;;
         respond 500 (JObj [("error", JStr "Failed to generate emails")])).

(** The mail options that the loop of [emailSending] builds for one entry
    of [emails]; the destructuring and [split] may throw. *)
Definition mailOptions (item : JsValue) : JsValue + JsError :=
  let? email := get_prop item "email" in
  let? content := get_prop item "content" in
  let? parts := call_split content LF in
  let subject := default JUndefined (JStr <$> parts !! 0%nat) in
  let? parts' := call_split content LF in
  let text := JStr (join (String LF "") (slice1 parts')) in
  inl (JObj [("from", JStr "your-email@gmail.com");
             ("to", email);
             ("subject", subject);
             ("text", text)]).

(** [for (const item of items) { step item }] *)
Fixpoint for_of (items : list JsValue) (step : JsValue -> Prog) : Prog :=
  match items with
  | [] => Ret JUndefined
  | item :: rest => step item ;; for_of rest step
  end.

Definition emailSending (req : Request) : Prog :=
  let* emails := lift (get_prop (body req) "emails") in
  if negb (truthy emails) || negb (isArray emails) then
    respond 400 (JObj [("error", JStr "Invalid email data format.")])
  else
    try_catch
      (match emails with
       | JArr items =>
           for_of items (fun item =>
             let* options := lift (mailOptions item) in
             let* info := await (SendMail transporter options) in
             let* email := lift (get_prop item "email") in
             let! email := ToString email in
             let* response := lift (get_prop info "response") in
             let! response := ToString response in
             console_log ("Email sent to " +:+ email +:+ ": " +:+ response))
       | _ => Throw (TypeError "emails is not iterable")
       end ;;
       respond 200 (JObj [("message", JStr "Emails sent successfully!")]))
      (fun error =>
         console_error "Error sending emails:" error ;;
         respond 500 (JObj [("error", JStr "Failed to send emails.")])).

(** The [try] statement of [emailSending] when [emails] is the array
    [items]. *)
Definition send_loop (items : list JsValue) : Prog :=
  try_catch
    (for_of items (fun item =>
       let* options := lift (mailOptions item) in
       let* info := await (SendMail transporter options) in
       let* email := lift (get_prop item "email") in
       let! email := ToString email in
       let* response := lift (get_prop info "response") in
       let! response := ToString response in
       console_log ("Email sent to " +:+ email +:+ ": " +:+ response)) ;;
     respond 200 (JObj [("message", JStr "Emails sent successfully!")]))
    (fun error =>
       console_error "Error sending emails:" error ;;
       respond 500 (JObj [("error", JStr "Failed to send emails.")])).

End Controllers.

(** The cache key and the request of one company, as [fetchCompanyInfo]
    writes them when [companyName] has a string. *)
Definition company_key (companyName : JsValue) : string :=
  "company:" +:+ string_of companyName.

Definition company_call (companyName : JsValue) : ExtCall :=
  AxiosGet axiosInstance ("/company?name=" +:+ string_of companyName).

(** What the [catch] block of [fetchCompanyInfo] does, entered in the
    world [w1], for a [companyName] that has a string. *)
Definition retry (o : Oracle) (companyName : JsValue) (w1 : World) (retries : Z)
    (error : JsError) : World * Prog :=
  if decide (0 < retries)%Z then
    exec o
      (write_console
         {| level := LevelWarn;
            message := "Retrying fetch for company: " +:+ string_of companyName
                       +:+ ". Attempts left: " +:+ pretty retries;
            attached := None |} w1)
      (fetchCompanyInfo companyName (retries - 1))
  else
    (write_console
       {| level := LevelError;
          message := "Failed to fetch company info for " +:+ string_of companyName
                     +:+ " after retries:";
          attached := Some error |} w1,
     Ret JNull).

(** The external call that [emailSending] makes for one entry of
    [emails], if the entry gets that far. *)
Definition mail_call (env : Env) (item : JsValue) : option ExtCall :=
  match mailOptions item with
  | inl options => Some (SendMail (transporter env) options)
  | inr _ => None
  end.

Definition sent_ok : Response :=
  {| status := 200; json := JObj [("message", JStr "Emails sent successfully!")] |}.

Definition send_failed : Response :=
  {| status := 500; json := JObj [("error", JStr "Failed to send emails.")] |}.

(** The [catch] block of [emailSending], entered in the world [w]. *)
Definition send_abort (w : World) (error : JsError) : World * Prog :=
  (send_response send_failed
     (write_console
        {| level := LevelError; message := "Error sending emails:";
           attached := Some error |} w),
   Ret JUndefined).

(** What a run of the loop of [emailSending] over [items], from the
    world [w] to the world [w'], leaves behind: the calls of the first [n]
    entries in their order, one response, and nothing after a call that
    was rejected. *)
Definition send_post (env : Env) (o : Oracle) (w : World) (items : list JsValue)
    (w' : World) : Prop :=
  exists (n : nat) (calls : list ExtCall) (r : Response),
    issued w' = issued w ++ calls
    /\ Forall2 (fun item c => mail_call env item = Some c) (take n items) calls
    /\ responses w' = responses w ++ [r]
    /\ cache w' = cache w
    /\ (r = sent_ok /\ n = length items \/ r = send_failed)
    /\ (forall i c e,
          calls !! i = Some c ->
          outcome (o (length (issued w) + i) c) = Rejected e ->
          n = S i /\ r = send_failed).

Definition invalid_request : Response :=
  {| status := 400; json := JObj [("error", JStr "Invalid request data")] |}.

Definition generated (emails : list JsValue) : Response :=
  {| status := 200; json := JObj [("emails", JArr emails)] |}.

Definition generate_failed : Response :=
  {| status := 500; json := JObj [("error", JStr "Failed to generate emails")] |}.

(** How [generateEmailController] goes on once its [Promise.all] has
    settled with [o]. *)
Definition generate_join (o : Outcome) : Prog :=
  try_catch
    (let* emails := settle o in
     respond 200 (JObj [("emails", emails)]))
    (fun error =>
       console_error "Error generating emails:" error ;;
       respond 500 (JObj [("error", JStr "Failed to generate emails")])).

(** A task body all of whose results satisfy [Q], and which neither
    answers the request nor forks. *)
Fixpoint task_inv (Q : JsValue -> Prop) (p : Prog) : Prop :=
  match p with
  | Ret v => Q v
  | Throw _ => True
  | Sync op k =>
      (forall st b, op <> Respond st b) /\ forall a, task_inv Q (k a)
  | Yield q => task_inv Q q
  | Await _ k => forall o, task_inv Q (k o)
  | All _ _ => False
  end.

(** The entry of the response that belongs to [recipient]. *)
Definition email_of (recipient v : JsValue) : Prop :=
  exists email content,
    get_prop recipient "email" = inl email
    /\ v = JObj [("email", email); ("content", JStr content)].

(** Some task has thrown. *)
Definition thrown (ts : list Prog) : Prop :=
  exists j e, ts !! j = Some (Throw e).

(** The states of a request to [generateEmailController] for the
    recipients [rs], started in the world [w]: every task is a body of
    its recipient, and either the controller is still waiting and has not
    answered, or every task has returned and the answer is the list of
    their values, or a task has thrown and the answer is the failure. *)
Definition pool_inv (w : World) (rs : list JsValue) (pl : Pool) : Prop :=
  Forall2 (fun r t => task_inv (email_of r) t) rs (tasks pl)
  /\ ((exists ps, main pl = All ps generate_join)
         /\ joined (tasks pl) = None
         /\ responses (world pl) = responses w
      \/ main pl = Ret JUndefined
         /\ (exists vs, tasks pl = Ret <$> vs
                       /\ responses (world pl) = responses w ++ [generated vs])
      \/ main pl = Ret JUndefined
         /\ thrown (tasks pl)
         /\ responses (world pl) = responses w ++ [generate_failed]).

(** A task body whose every result satisfies [Q] together with the last
    external call that the body has made and the answer it got. *)
Fixpoint traced (Q : option (ExtCall * Outcome) -> JsValue -> Prop)
    (last : option (ExtCall * Outcome)) (p : Prog) : Prop :=
  match p with
  | Ret v => Q last v
  | Throw _ => True
  | Sync _ k => forall a, traced Q last (k a)
  | Yield q => traced Q last q
  | Await call k => forall o, traced Q (Some (call, o)) (k o)
  | All _ _ => False
  end.

(** The entry of the response that [recipient]'s pipeline makes, and
    where its content comes from: the last call of the pipeline was the
    completion request for the prompt of this recipient, and the content
    is the trimmed text of the answer to it. *)
Definition generated_for (env : Env) (recipient : JsValue)
    (last : option (ExtCall * Outcome)) (v : JsValue) : Prop :=
  exists companyInfo prompt completion s email,
    prompt_for recipient companyInfo = inl prompt
    /\ last = Some (ChatCompletionsCreate (openai env) (completion_params prompt),
                    Resolved completion)
    /\ completion_content completion = inl (JStr s)
    /\ get_prop recipient "email" = inl email
    /\ v = JObj [("email", email); ("content", JStr (trim s))].

(** Every task of the request for the recipients [rs] is a body of its
    recipient in the sense of [generated_for]; the call it has last been
    answered was issued, and the answer was delivered to it by one of the
    events [evs]; the call it waits on was issued. *)
Definition origin_inv (env : Env) (rs : list JsValue) (evs : list Event) (pl : Pool) : Prop :=
  forall i r t,
    rs !! i = Some r ->
    tasks pl !! i = Some t ->
    exists last,
      traced (generated_for env r) last t
      /\ (forall call o, last = Some (call, o) ->
            call ∈ issued (world pl) /\ Deliver i o ∈ evs)
      /\ (forall call k, t = Await call k -> call ∈ issued (world pl)).

(** ** Sample data *)

Definition sample_env : Env :=
  {| OPENAI_API_KEY := Some "sk-test";
     EMAIL_SENDER := Some "sender@example.com";
     EMAIL_PASS := Some "app-password" |}.

Definition fresh : World :=
  {| cache := ∅; clock := 0; console := []; issued := []; responses := [] |}.

Definition acme : JsValue := JStr "Acme".
Definition acme_info : JsValue := JObj [("name", JStr "Acme"); ("funding", JStr "Series B")].

(** Every external call is refused. *)
Definition service_down : Oracle :=
  fun _ _ => {| delay := 5; outcome := Rejected (ExternalError (JStr "ECONNREFUSED")) |}.

(** Every external call is answered; [data] is what the company API
    returns. *)
Definition service_up (data : JsValue) : Oracle :=
  fun _ _ => {| delay := 5;
                outcome := Resolved (JObj [("data", data); ("response", JStr "250 2.0.0 OK")]) |}.

(** The first external call is refused, the later ones are answered. *)
Definition first_call_fails : Oracle :=
  fun n call => match n with
                | O => service_down n call
                | S _ => service_up acme_info n call
                end.

(** The world in which Acme was cached at time 0 and the clock shows
    one second. *)
Definition acme_cached : World :=
  {| cache := {[ "company:Acme" := (acme_info, 3600000%N) ]};
     clock := 1000; console := []; issued := []; responses := [] |}.

Definition email_a : JsValue :=
  JObj [("email", JStr "a@x.com");
        ("content", JStr ("Subject A" +:+ String LF "Body line 1"))].

Definition email_b : JsValue :=
  JObj [("email", JStr "b@x.com"); ("content", JStr "Only a subject")].

Definition send_request (emails : JsValue) : Request :=
  {| body := JObj [("emails", emails)] |}.

Definition recipient_a : JsValue :=
  JObj [("email", JStr "a@x.com"); ("companyName", JStr "Acme"); ("description", JStr "d1")].

Definition generate_request (recipients : JsValue) : Request :=
  {| body := JObj [("recipients", recipients)] |}.

Definition completion_a : JsValue :=
  JObj [("choices",
         JArr [JObj [("message",
                      JObj [("content",
                             JStr ("Subject A" +:+ String LF "Body line 1"
                                   +:+ String LF "Body line 2"))])]])].

(** The entry that [completion_a] gives [recipient_a]. *)
Definition entry_a : JsValue :=
  JObj [("email", JStr "a@x.com");
        ("content", JStr ("Subject A" +:+ String LF "Body line 1"
                          +:+ String LF "Body line 2"))].

(** The company API answers, the pipeline resumes, the completion API
    answers, the pipeline resumes. *)
Definition all_answered : list Event :=
  [Deliver 0 (Resolved (JObj [("data", acme_info)])); Resume 0;
   Deliver 0 (Resolved completion_a); Resume 0].

(** * Properties *)

(** ** Values and strings *)

Example split_lines :
  split LF ("Subject A" +:+ String LF "Body line 1" +:+ String LF "Body line 2")
  = ["Subject A"; "Body line 1"; "Body line 2"].
Proof. reflexivity. Qed.

Example split_empty : split LF "" = [""].
Proof. reflexivity. Qed.

Example trim_both : trim ("  Hi there " +:+ String LF "") = "Hi there".
Proof. reflexivity. Qed.

Example stringify_object :
  json_stringify (JObj [("name", JStr "Acme"); ("staff", JArr [JNum 3; JUndefined]);
                        ("skipped", JUndefined)])
  = Some ("{" +:+ json_quote "name" +:+ ":" +:+ json_quote "Acme" +:+ ","
              +:+ json_quote "staff" +:+ ":[3,null]}").
Proof. reflexivity. Qed.


Lemma split_nonempty sep s : exists seg segs, split sep s = seg :: segs.
Proof.
  induction s as [|c rest IH]; cbn; [by eexists _, _|].
  destruct (Ascii.eqb c sep); [by eexists _, _|].
  destruct IH as (seg & segs & ->). by eexists _, _.
Qed.

(** A string without the separator is one segment. *)
Lemma split_single sep s : contains sep s = false -> split sep s = [s].
Proof.
  induction s as [|c rest IH]; cbn; [done|].
  destruct (Ascii.eqb c sep); [done|]. cbn. intros H. by rewrite IH.
Qed.

(** The first segment ends at the first separator. *)
Lemma split_first sep a b :
  contains sep a = false ->
  split sep (a +:+ String sep b) = a :: split sep b.
Proof.
  induction a as [|c rest IH].
  - intros _. change ("" +:+ String sep b) with (String sep b).
    cbn. by rewrite Ascii.eqb_refl.
  - change (String c rest +:+ String sep b) with (String c (rest +:+ String sep b)).
    cbn. destruct (Ascii.eqb c sep); [done|]. cbn. intros H. by rewrite IH.
Qed.

(** Joining the segments with the separator gives the string back. *)
Lemma join_split sep s : join (String sep "") (split sep s) = s.
Proof.
  unfold join. induction s as [|c rest IH]; cbn; [done|].
  destruct (Ascii.eqb_spec c sep) as [->|Hne].
  - destruct (split_nonempty sep rest) as (seg & segs & Hs).
    rewrite Hs in IH |- *. cbn. cbn in IH. by rewrite IH.
  - destruct (split_nonempty sep rest) as (seg & segs & Hs).
    rewrite Hs in IH |- *. destruct segs as [|seg' segs]; cbn in *; by rewrite <- IH.
Qed.

(** ** The cache *)

Lemma NodeCache_get_live key v expiration w :
  cache w !! key = Some (v, expiration) ->
  (clock w <= expiration)%N ->
  NodeCache_get key w = v.
Proof.
  intros Hk Ht. unfold NodeCache_get. rewrite Hk.
  destruct (N.ltb_spec expiration (clock w)); [lia | reflexivity].
Qed.

(** A miss stays a miss as long as nothing is stored: time only expires
    entries. *)
Lemma NodeCache_get_miss_later key w w' :
  cache w' = cache w ->
  (clock w <= clock w')%N ->
  NodeCache_get key w = JUndefined ->
  NodeCache_get key w' = JUndefined.
Proof.
  unfold NodeCache_get. intros -> Ht.
  destruct (cache w !! key) as [[v expiration]|]; [|reflexivity].
  destruct (N.ltb_spec expiration (clock w)), (N.ltb_spec expiration (clock w'));
    intros; subst; try reflexivity; lia.
Qed.

Lemma NodeCache_get_falsy_later key w w' :
  cache w' = cache w ->
  (clock w <= clock w')%N ->
  truthy (NodeCache_get key w) = false ->
  truthy (NodeCache_get key w') = false.
Proof.
  unfold NodeCache_get. intros -> Ht.
  destruct (cache w !! key) as [[v expiration]|]; [|reflexivity].
  destruct (N.ltb_spec expiration (clock w)), (N.ltb_spec expiration (clock w'));
    auto; lia.
Qed.

(** ** Running a body alone *)

Ltac run_exec :=
  cbn [exec bind try_catch lift settle await cache_get cache_set console_log
       console_warn console_error respond do_sync and_then template].

(** The calls already issued are never withdrawn. *)
Lemma exec_issued_extends o p : forall w,
  exists calls, issued (exec o w p).1 = issued w ++ calls.
Proof.
  induction p as [v|e|op k IH|q IH|call k IH|ps k IH]; intros w; cbn [exec].
  - exists []. by rewrite app_nil_r.
  - exists []. by rewrite app_nil_r.
  - destruct (do_sync op w) as [w1 a] eqn:Hop.
    destruct (IH a w1) as [calls Hc]. exists calls. rewrite Hc. f_equal.
    destruct op; cbn in Hop; by inversion Hop.
  - apply IH.
  - destruct (IH (outcome (o (length (issued w)) call))
                (elapse (delay (o (length (issued w)) call)) (issue call w)))
      as [calls Hc].
    exists (call :: calls). rewrite Hc. cbn. by rewrite <- app_assoc.
  - exists []. by rewrite app_nil_r.
Qed.

(** ** fetchCompanyInfo *)

Lemma stringable_inv v : stringable v = true -> exists s, ToString v = inl s.
Proof. unfold stringable. destruct (ToString v); [eauto|done]. Qed.

Lemma string_of_eq v s : ToString v = inl s -> string_of v = s.
Proof. unfold string_of. by intros ->. Qed.

(** A company name without a string: the template literal of the [try]
    block throws before anything is done, and the one of the [catch]
    block throws again, so the fetch throws and leaves the world as it
    is. *)
Lemma fetch_unprintable o companyName retries w e :
  ToString companyName = inr e ->
  exec o w (fetchCompanyInfo companyName retries) = (w, Throw e)
  /\ advance w (fetchCompanyInfo companyName retries) = (w, Throw e).
Proof.
  intros He. rewrite fetchCompanyInfo_equation_1, He.
  cbn [template try_catch]. by destruct (decide (0 < retries)%Z).
Qed.

Section Fetch.

Variable o : Oracle.
Variable companyName : JsValue.
Variable name : string.
Hypothesis Hname : ToString companyName = inl name.

Let key := company_key companyName.
Let call := company_call companyName.

Ltac named :=
  unfold key, call, company_key, company_call, retry;
  rewrite ?(string_of_eq companyName name Hname).

(** A truthy answer of [cache.get] is returned within the turn. *)
Lemma fetch_cached w retries :
  truthy (NodeCache_get key w) = true ->
  exec o w (fetchCompanyInfo companyName retries) = (w, Ret (NodeCache_get key w))
  /\ advance w (fetchCompanyInfo companyName retries) = (w, Ret (NodeCache_get key w)).
Proof.
  named. intros Hv. rewrite fetchCompanyInfo_equation_1, Hname.
  cbn [exec advance bind try_catch cache_get do_sync template]. by rewrite Hv.
Qed.

Lemma fetch_hit w retries v expiration :
  cache w !! key = Some (v, expiration) ->
  (clock w <= expiration)%N ->
  truthy v = true ->
  exec o w (fetchCompanyInfo companyName retries) = (w, Ret v)
  /\ advance w (fetchCompanyInfo companyName retries) = (w, Ret v).
Proof.
  intros Hk Ht Hv. rewrite <- (NodeCache_get_live _ _ _ _ Hk Ht) in Hv |- *.
  by apply fetch_cached.
Qed.

(** One attempt that finds nothing usable in the cache. *)
Lemma fetch_miss w retries :
  truthy (NodeCache_get key w) = false ->
  exec o w (fetchCompanyInfo companyName retries) =
    let reply := o (length (issued w)) call in
    let w1 := elapse (delay reply) (issue call w) in
    match outcome reply with
    | Resolved response =>
        match get_prop response "data" with
        | inl companyInfo => (NodeCache_set key companyInfo w1, Ret companyInfo)
        | inr error => retry o companyName w1 retries error
        end
    | Rejected error => retry o companyName w1 retries error
    end.
Proof.
  named. intros Hmiss. rewrite fetchCompanyInfo_equation_1, Hname. run_exec.
  rewrite Hmiss. run_exec.
  destruct (outcome (o (length (issued w)) _)) as [response|error]; run_exec.
  - destruct (get_prop response "data") as [companyInfo|error]; run_exec.
    + reflexivity.
    + destruct (decide (0 < retries)%Z); run_exec; reflexivity.
  - destruct (decide (0 < retries)%Z); run_exec; reflexivity.
Qed.

(** Exhausted retries: every attempt fails. *)
Lemma fetch_all_fail (N : nat) : forall w,
  NodeCache_get key w = JUndefined ->
  (forall n c, exists e, outcome (o n c) = Rejected e) ->
  exists w',
    exec o w (fetchCompanyInfo companyName (Z.of_nat N)) = (w', Ret JNull)
    /\ issued w' = issued w ++ replicate (S N) call
    /\ cache w' = cache w
    /\ responses w' = responses w.
Proof.
  induction N as [|N IH]; intros w Hmiss Hfail.
  - rewrite fetch_miss by (rewrite Hmiss; reflexivity). cbn zeta.
    destruct (Hfail (length (issued w)) call) as [e ->].
    unfold retry. rewrite decide_False by lia.
    eexists. split; [reflexivity|]. cbn. auto.
  - rewrite fetch_miss by (rewrite Hmiss; reflexivity). cbn zeta.
    destruct (Hfail (length (issued w)) call) as [e ->].
    unfold retry. rewrite decide_True by lia.
    replace (Z.of_nat (S N) - 1)%Z with (Z.of_nat N) by lia.
    match goal with |- context [exec o ?w1 _] => destruct (IH w1) as (w' & Hrun & Hi & Hc & Hr) end.
    + eapply NodeCache_get_miss_later; [| |exact Hmiss]; cbn; [reflexivity|lia].
    + exact Hfail.
    + exists w'. split; [exact Hrun|]. rewrite Hi, Hc, Hr. cbn.
      rewrite <- app_assoc. auto.
Qed.

(** A fetch that started from a miss and came back with a usable value
    has stored it, with the full time to live ahead. *)
Lemma fetch_stores (n : nat) : forall retries w w1 v,
  Z.to_nat retries = n ->
  truthy (NodeCache_get key w) = false ->
  exec o w (fetchCompanyInfo companyName retries) = (w1, Ret v) ->
  truthy v = true ->
  cache w1 !! key = Some (v, (clock w1 + stdTTL * 1000)%N).
Proof.
  induction n as [n IH] using lt_wf_ind. intros retries w w1 v Hn Hmiss Hrun Hv.
  rewrite fetch_miss in Hrun by exact Hmiss. cbn zeta in Hrun.
  set (reply := o (length (issued w)) call) in *.
  assert (Hretry : forall error,
    retry o companyName (elapse (delay reply) (issue call w)) retries error = (w1, Ret v) ->
    cache w1 !! key = Some (v, (clock w1 + stdTTL * 1000)%N)).
  { intros error. unfold retry. destruct (decide (0 < retries)%Z) as [Hpos|Hneg].
    - intros Hrun'. eapply (IH (Z.to_nat (retries - 1))); [lia|reflexivity| |exact Hrun'|exact Hv].
      eapply NodeCache_get_falsy_later; [| |exact Hmiss]; cbn; [reflexivity|lia].
    - intros [= <- <-]. discriminate Hv. }
  destruct (outcome reply) as [response|error]; [|by eapply Hretry].
  destruct (get_prop response "data") as [companyInfo|error]; [|by eapply Hretry].
  injection Hrun as <- <-. cbn. by rewrite lookup_insert_eq.
Qed.

(** A fetch that finds nothing usable in the cache issues the request. *)
Lemma fetch_miss_issues w retries :
  truthy (NodeCache_get key w) = false ->
  exists calls,
    issued (exec o w (fetchCompanyInfo companyName retries)).1 = issued w ++ call :: calls.
Proof.
  intros Hmiss. rewrite fetch_miss by exact Hmiss. cbn zeta.
  set (reply := o (length (issued w)) call).
  set (w1 := elapse (delay reply) (issue call w)).
  assert (Hretry : forall error, exists calls,
    issued (retry o companyName w1 retries error).1 = issued w ++ call :: calls).
  { intros error. unfold retry. destruct (decide (0 < retries)%Z).
    - match goal with |- context [exec o ?w2 ?p] =>
        destruct (exec_issued_extends o p w2) as [calls Hc] end.
      exists calls. rewrite Hc. cbn. by rewrite <- app_assoc.
    - by exists []. }
  destruct (outcome reply) as [response|error]; [|apply Hretry].
  destruct (get_prop response "data") as [data|error]; [|apply Hretry].
  by exists [].
Qed.

(** An entry older than its time to live counts as absent. *)
Lemma fetch_expired_refetches w retries v expiration :
  cache w !! key = Some (v, expiration) ->
  (expiration < clock w)%N ->
  exists calls,
    issued (exec o w (fetchCompanyInfo companyName retries)).1 = issued w ++ call :: calls.
Proof.
  intros Hk Ht. apply fetch_miss_issues. unfold NodeCache_get. rewrite Hk.
  by destruct (N.ltb_spec expiration (clock w)); [|lia].
Qed.

(** Whatever the outside answers, the fetch ends in a return. *)
Lemma fetch_never_throws (n : nat) : forall retries w,
  Z.to_nat retries = n ->
  exists w' v, exec o w (fetchCompanyInfo companyName retries) = (w', Ret v).
Proof.
  induction n as [n IH] using lt_wf_ind. intros retries w Hn.
  destruct (truthy (NodeCache_get key w)) eqn:Hget.
  { destruct (fetch_cached w retries Hget) as [-> _]. eauto. }
  rewrite fetch_miss by exact Hget. cbn zeta.
  set (reply := o (length (issued w)) call).
  assert (Hretry : forall error, exists w' v,
    retry o companyName (elapse (delay reply) (issue call w)) retries error = (w', Ret v)).
  { intros error. unfold retry. destruct (decide (0 < retries)%Z); [|eauto].
    apply (IH (Z.to_nat (retries - 1))); lia. }
  destruct (outcome reply) as [response|error]; [|apply Hretry].
  destruct (get_prop response "data") as [companyInfo|error]; [|apply Hretry].
  eauto.
Qed.

End Fetch.

(** ** emailSending *)

Section Send.

Variable env : Env.
Variable o : Oracle.

Lemma emailSending_array req items w :
  get_prop (body req) "emails" = inl (JArr items) ->
  exec o w (emailSending env req) = exec o w (send_loop env items).
Proof. intros H. unfold emailSending. rewrite H. reflexivity. Qed.

Lemma send_loop_nil w :
  exec o w (send_loop env []) = (send_response sent_ok w, Ret JUndefined).
Proof. reflexivity. Qed.

(** One round of the loop. *)
Lemma send_loop_cons item rest w :
  exec o w (send_loop env (item :: rest)) =
    match mailOptions item with
    | inr error => send_abort w error
    | inl options =>
        let reply := o (length (issued w)) (SendMail (transporter env) options) in
        let w1 := elapse (delay reply) (issue (SendMail (transporter env) options) w) in
        match outcome reply with
        | Rejected error => send_abort w1 error
        | Resolved info =>
            match
              (let? email := get_prop item "email" in
               let? email := ToString email in
               let? response := get_prop info "response" in
               let? response := ToString response in
               inl ("Email sent to " +:+ email +:+ ": " +:+ response))
            with
            | inr error => send_abort w1 error
            | inl line =>
                exec o
                  (write_console
                     {| level := LevelLog; message := line; attached := None |} w1)
                  (send_loop env rest)
            end
        end
    end.
Proof.
  unfold send_loop at 1. cbn [for_of]. run_exec.
  destruct (mailOptions item) as [options|error]; run_exec; [|reflexivity].
  destruct (outcome (o (length (issued w)) (SendMail (transporter env) options)))
    as [info|error]; run_exec; [|reflexivity].
  destruct (get_prop item "email") as [email|error]; run_exec; [|reflexivity].
  destruct (ToString email) as [to|error]; run_exec; [|reflexivity].
  destruct (get_prop info "response") as [response|error]; run_exec; [|reflexivity].
  destruct (ToString response) as [r|error]; run_exec; reflexivity.
Qed.

(** The whole loop: the calls it issues are those of a prefix of
    [items], in order; it answers once; a call that fails is the last. *)
Lemma send_post_abort0 items w e : send_post env o w items (send_abort w e).1.
Proof.
  exists 0%nat, [], send_failed. cbn. rewrite app_nil_r.
  split; [reflexivity|]. split; [constructor|]. split; [reflexivity|].
  split; [reflexivity|]. split; [by right|].
  intros i c e' Hi. by destruct i.
Qed.

Lemma send_post_abort1 item rest w c0 dt e :
  mail_call env item = Some c0 ->
  send_post env o w (item :: rest) (send_abort (elapse dt (issue c0 w)) e).1.
Proof.
  intros Hcall. exists 1%nat, [c0], send_failed. cbn.
  split; [reflexivity|]. split; [constructor; [exact Hcall|rewrite take_0; constructor]|].
  split; [reflexivity|]. split; [reflexivity|]. split; [by right|].
  intros i c e' Hi _. destruct i as [|i]; [done|]. by destruct i.
Qed.

Lemma send_loop_run items : forall w,
  send_post env o w items (exec o w (send_loop env items)).1.
Proof.
  induction items as [|item rest IH]; intros w.
  { exists 0%nat, [], sent_ok. rewrite send_loop_nil. cbn. rewrite app_nil_r.
    split; [reflexivity|]. split; [constructor|]. split; [reflexivity|].
    split; [reflexivity|]. split; [by left|].
    intros i c e Hi. by destruct i. }
  rewrite send_loop_cons.
  destruct (mailOptions item) as [options|error] eqn:Hopt; [|apply send_post_abort0].
  cbn zeta.
  set (c0 := SendMail (transporter env) options).
  set (reply := o (length (issued w)) c0).
  assert (Hcall : mail_call env item = Some c0) by (unfold mail_call; by rewrite Hopt).
  destruct (outcome reply) as [info|error] eqn:Hout; [|by apply send_post_abort1].
  destruct (let? email := get_prop item "email" in _) as [line|error];
    [|by apply send_post_abort1].
  match goal with |- context [exec o ?w2 (send_loop env rest)] =>
    destruct (IH w2) as (n & calls & r & Hi & Hf & Hr & Hc & Hok & Hlast)
  end.
  cbn in Hi, Hr, Hc, Hlast. rewrite length_app in Hlast. cbn in Hlast.
  exists (S n), (c0 :: calls), r.
  split; [rewrite Hi; by rewrite <- app_assoc|].
  split; [by constructor|].
  split; [exact Hr|]. split; [exact Hc|].
  split; [destruct Hok as [ [-> ->] | -> ]; auto|].
  intros i c e Hi' Hrej. destruct i as [|i]; cbn in Hi'.
  - injection Hi' as <-. rewrite Nat.add_0_r in Hrej. fold reply in Hrej. congruence.
  - replace (length (issued w) + S i)%nat with (length (issued w) + 1 + i)%nat in Hrej by lia.
    destruct (Hlast i c e Hi' Hrej) as [-> ->]. done.
Qed.

(** The entry of [emails] behind each call that a run adds. *)
Lemma emailSending_dispatch req items w k c :
  get_prop (body req) "emails" = inl (JArr items) ->
  issued (exec o w (emailSending env req)).1 !! (length (issued w) + k)%nat = Some c ->
  exists item, items !! k = Some item /\ mail_call env item = Some c.
Proof.
  intros Hemails Hk. rewrite (emailSending_array _ _ _ Hemails) in Hk.
  destruct (send_loop_run items w) as (n & calls & r & Hi & Hf & _).
  rewrite Hi, lookup_app_r, Nat.add_comm, Nat.add_sub in Hk by lia.
  destruct (Forall2_lookup_r _ _ _ _ _ Hf Hk) as (item & Hitem & Hcall).
  apply lookup_take_Some in Hitem as [Hitem _]. eauto.
Qed.

(** Without an array there is no loop. *)
Lemma emailSending_not_array req w :
  (forall items, get_prop (body req) "emails" <> inl (JArr items)) ->
  issued (exec o w (emailSending env req)).1 = issued w.
Proof.
  intros Hne. unfold emailSending.
  destruct (get_prop (body req) "emails") as [emails|e]; [|reflexivity].
  destruct emails; try reflexivity; cbn; rewrite ?orb_true_r; try reflexivity.
  by destruct (Hne items).
Qed.

End Send.

(** What [mailOptions] makes of an entry. *)
Lemma mailOptions_inv item options :
  mailOptions item = inl options ->
  exists to content,
    get_prop item "email" = inl to
    /\ get_prop item "content" = inl (JStr content)
    /\ options =
         JObj [("from", JStr "your-email@gmail.com");
               ("to", to);
               ("subject", default JUndefined (JStr <$> split LF content !! 0%nat));
               ("text", JStr (join (String LF "") (slice1 (split LF content))))].
Proof.
  unfold mailOptions.
  destruct (get_prop item "email") as [to|]; [|done].
  destruct (get_prop item "content") as [content|]; [|done].
  destruct content; try done. cbn. intros [= <-]. eauto.
Qed.

(** ** The event loop *)

Lemma task_inv_weaken (Q Q' : JsValue -> Prop) p :
  (forall v, Q v -> Q' v) -> task_inv Q p -> task_inv Q' p.
Proof.
  intros HQ. induction p as [v|e|op k IH|q IH|call k IH|ps k IH]; cbn; auto.
  intros [Hop Hk]. split; auto.
Qed.

Lemma task_inv_bind (Q1 Q : JsValue -> Prop) p f :
  task_inv Q1 p -> (forall v, Q1 v -> task_inv Q (f v)) -> task_inv Q (bind p f).
Proof.
  intros Hp Hf. induction p as [v|e|op k IH|q IH|call k IH|ps k IH]; cbn in *; auto.
  destruct Hp as [Hop Hk]. split; auto.
Qed.

Lemma task_inv_try (Q : JsValue -> Prop) p h :
  task_inv Q p -> (forall e, task_inv Q (h e)) -> task_inv Q (try_catch p h).
Proof.
  intros Hp Hh. induction p as [v|e|op k IH|q IH|call k IH|ps k IH]; cbn in *; auto.
  destruct Hp as [Hop Hk]. split; auto.
Qed.

Lemma task_inv_lift (Q : JsValue -> Prop) r :
  (forall v, r = inl v -> Q v) -> task_inv Q (lift r).
Proof. destruct r; cbn; auto. Qed.

Lemma task_inv_await_async (Q : JsValue -> Prop) p :
  task_inv Q p -> task_inv Q (await_async p).
Proof.
  intros Hp. unfold await_async. apply task_inv_try; [|done].
  eapply task_inv_bind; [exact Hp|]. auto.
Qed.

Lemma task_inv_fetchCompanyInfo companyName (n : nat) : forall retries,
  Z.to_nat retries = n ->
  task_inv (fun _ => True) (fetchCompanyInfo companyName retries).
Proof.
  induction n as [n IH] using lt_wf_ind. intros retries Hn.
  rewrite fetchCompanyInfo_equation_1.
  destruct (ToString companyName) as [name|e0];
    [|cbn; by destruct (decide (0 < retries)%Z)].
  apply task_inv_try.
  - cbn. split; [done|]. intros cachedInfo. destruct (truthy cachedInfo); cbn; [done|].
    intros [response|e]; cbn; [|done].
    destruct (get_prop response "data"); cbn; [|done]. by split.
  - intros e. destruct (decide (0 < retries)%Z).
    + cbn. split; [done|]. intros _. apply (IH (Z.to_nat (retries - 1))); lia.
    + cbn. by split.
Qed.

Lemma task_inv_generateEmailContent env recipient companyInfo :
  task_inv (fun v => exists s, v = JStr (trim s))
    (generateEmailContent env recipient companyInfo).
Proof.
  unfold generateEmailContent. apply task_inv_try.
  - destruct (prompt_for recipient companyInfo) as [prompt|]; cbn; [|done].
    intros [completion|e]; cbn; [|done].
    destruct (completion_content completion) as [content|]; cbn; [|done].
    destruct content; cbn; eauto.
  - intros e. destruct (get_prop recipient "email") as [email|]; cbn; [|done].
    destruct (ToString email); cbn; [|done]. by split.
Qed.

Lemma task_inv_emailPromise env recipient :
  task_inv (email_of recipient) (emailPromise env recipient).
Proof.
  unfold emailPromise.
  destruct (get_prop recipient "companyName") as [companyName|]; cbn [lift bind]; [|done].
  eapply task_inv_bind.
  { apply task_inv_await_async. by eapply task_inv_fetchCompanyInfo. }
  intros companyInfo _. eapply task_inv_bind.
  { apply task_inv_await_async, task_inv_generateEmailContent. }
  intros v [content ->]. unfold email_of.
  destruct (get_prop recipient "email") as [email|]; cbn; eauto.
Qed.

Lemma advance_task (Q : JsValue -> Prop) p : forall w,
  task_inv Q p ->
  task_inv Q (advance w p).2 /\ responses (advance w p).1 = responses w.
Proof.
  induction p as [v|e|op k IH|q IH|call k IH|ps k IH]; intros w Hp; cbn in *; auto.
  destruct Hp as [Hop Hk].
  destruct (do_sync op w) as [w1 a] eqn:Hsync.
  destruct (IH a w1 (Hk a)) as [Ht Hr]. split; [exact Ht|]. rewrite Hr.
  destruct op; cbn in Hsync; inversion Hsync; try reflexivity.
  by destruct (Hop status0 body0).
Qed.

Lemma spawn_tasks (Q : JsValue -> JsValue -> Prop) rs ps :
  Forall2 (fun r p => task_inv (Q r) p) rs ps ->
  forall w,
    Forall2 (fun r t => task_inv (Q r) t) rs (spawn w ps).2
    /\ responses (spawn w ps).1 = responses w.
Proof.
  induction 1 as [|r p rs ps Hp Hrest IH]; intros w; cbn; [by split|].
  destruct (advance_task (Q r) p w Hp) as [Ht Hr].
  destruct (advance w p) as [w1 t]. cbn in Ht, Hr.
  destruct (IH w1) as [Hts Hrs]. destruct (spawn w1 ps) as [w2 ts]. cbn in *.
  split; [by constructor|congruence].
Qed.

Lemma first_thrown_Some ts e : first_thrown ts = Some e -> thrown ts.
Proof.
  induction ts as [|t ts IH]; cbn; [done|]. intros H.
  destruct t; try (destruct (IH H) as (j & e' & Hj); by exists (S j), e').
  by exists 0%nat, e0.
Qed.

Lemma thrown_first ts : thrown ts -> is_Some (first_thrown ts).
Proof.
  intros (j & e & Hj). revert j Hj.
  induction ts as [|t ts IH]; intros j Hj; [by destruct j|].
  destruct j as [|j]; cbn in Hj.
  - injection Hj as ->. by eexists.
  - destruct t; cbn; eauto.
Qed.

Lemma all_returned_Some ts vs : all_returned ts = Some vs -> ts = Ret <$> vs.
Proof.
  revert vs. induction ts as [|t ts IH]; cbn; intros vs H.
  - by injection H as <-.
  - destruct t; try done. destruct (all_returned ts) as [vs'|]; [|done].
    injection H as <-. cbn. f_equal. by apply IH.
Qed.

Lemma joined_returned vs : joined (Ret <$> vs) = Some (Resolved (JArr vs)).
Proof.
  unfold joined.
  assert (first_thrown (Ret <$> vs) = None) as -> by (induction vs; auto).
  assert (all_returned (Ret <$> vs) = Some vs) as ->; [|done].
  induction vs as [|v vs IH]; cbn; [done|]. by rewrite IH.
Qed.

Lemma fmap_Ret_inj (vs vs' : list JsValue) : Ret <$> vs = Ret <$> vs' -> vs = vs'.
Proof.
  revert vs'. induction vs as [|v vs IH]; intros [|v' vs']; cbn; try done.
  intros [= -> H]. f_equal. by apply IH.
Qed.

Lemma rejoin_inv w rs w1 ps ts :
  Forall2 (fun r t => task_inv (email_of r) t) rs ts ->
  responses w1 = responses w ->
  pool_inv w rs (rejoin {| world := w1; main := All ps generate_join; tasks := ts |}).
Proof.
  intros Hts Hr. unfold rejoin. cbn [main tasks world].
  destruct (joined ts) as [o|] eqn:Hj.
  - unfold joined in Hj. destruct (first_thrown ts) as [e|] eqn:Hthrown.
    + injection Hj as <-. cbn. split; [exact Hts|]. right. right.
      split; [done|]. split; [by eapply first_thrown_Some|]. cbn. by rewrite Hr.
    + destruct (all_returned ts) as [vs|] eqn:Hall; [|done]. injection Hj as <-.
      cbn. split; [exact Hts|]. right. left. split; [done|].
      exists vs. split; [by apply all_returned_Some|]. cbn. by rewrite Hr.
  - split; [exact Hts|]. left. eauto.
Qed.

Lemma continue_inv w rs pl i t0 p :
  pool_inv w rs pl ->
  tasks pl !! i = Some t0 ->
  (forall v, t0 <> Ret v) ->
  (forall e, t0 <> Throw e) ->
  (forall Q, task_inv Q t0 -> task_inv Q p) ->
  pool_inv w rs (continue pl i p).
Proof.
  intros [Hts Hcases] Hi Hret Hthrow Hp. unfold continue.
  destruct (Forall2_lookup_r _ _ _ _ _ Hts Hi) as (r & Hr & Ht0).
  destruct (advance_task (email_of r) p (world pl) (Hp _ Ht0)) as [Ht Hresp].
  destruct (advance (world pl) p) as [w' t]. cbn in Ht, Hresp.
  assert (Hts' : Forall2 (fun r t => task_inv (email_of r) t) rs (<[i:=t]> (tasks pl))).
  { rewrite <- (list_insert_id rs i r Hr). by apply Forall2_insert. }
  destruct Hcases as [([ps Hmain] & Hj & Hw)|[(Hmain & vs & Hvs & Hw)|(Hmain & Hth & Hw)]].
  - destruct pl as [w0 m ts]. cbn in *. subst m.
    apply rejoin_inv; [exact Hts'|congruence].
  - rewrite Hvs, list_lookup_fmap in Hi.
    destruct (vs !! i) as [v|]; [|done]. injection Hi as <-. by destruct (Hret v).
  - unfold rejoin. cbn [main]. rewrite Hmain. split; [exact Hts'|].
    right. right. split; [done|]. cbn. split; [|congruence].
    destruct Hth as (j & e & Hj). exists j, e.
    rewrite list_lookup_insert_ne; [done|]. intros ->. rewrite Hi in Hj.
    injection Hj as ->. by destruct (Hthrow e).
Qed.

Lemma step_inv w rs ev pl : pool_inv w rs pl -> pool_inv w rs (step ev pl).
Proof.
  intros Hinv. destruct ev as [dt|i|i o]; cbn.
  - exact Hinv.
  - destruct (tasks pl !! i) as [t0|] eqn:Hi; [|done].
    destruct t0; try done. eapply continue_inv; eauto; done.
  - destruct (tasks pl !! i) as [t0|] eqn:Hi; [|done].
    destruct t0; try done. eapply continue_inv; eauto; done.
Qed.

Lemma run_inv w rs evs : forall pl, pool_inv w rs pl -> pool_inv w rs (run evs pl).
Proof.
  induction evs as [|ev evs IH]; intros pl Hinv; cbn; [done|].
  by apply IH, step_inv.
Qed.

Lemma boot_generate env w req rs :
  get_prop (body req) "recipients" = inl (JArr rs) ->
  rs <> [] ->
  pool_inv w rs (boot w (generateEmailController env req)).
Proof.
  intros Hrs Hne.
  assert (Hadv : advance w (generateEmailController env req)
                 = (w, All (map (emailPromise env) rs) generate_join)).
  { unfold generateEmailController. rewrite Hrs. by destruct rs. }
  unfold boot. rewrite Hadv.
  destruct (spawn_tasks email_of rs (map (emailPromise env) rs)) with (w := w)
    as [Hts Hr].
  { clear. induction rs; constructor; [apply task_inv_emailPromise|done]. }
  destruct (spawn w (map (emailPromise env) rs)) as [w2 ts]. by apply rejoin_inv.
Qed.

(** Only a non-empty array of recipients starts tasks. *)
Lemma boot_without_tasks env w req :
  (forall r rs, get_prop (body req) "recipients" <> inl (JArr (r :: rs))) ->
  tasks (boot w (generateEmailController env req)) = [].
Proof.
  intros Hne. unfold generateEmailController, boot.
  destruct (get_prop (body req) "recipients") as [recipients|e]; [|done].
  destruct recipients as [| |b|n|s|items|fields]; try done.
  - by destruct b.
  - cbn. by destruct (n =? 0)%Z.
  - cbn. destruct (String.eqb s ""); [done|]. cbn.
    by destruct (Z.of_nat (String.length s)).
  - destruct items as [|r rs]; [done|]. by destruct (Hne r rs).
  - cbn. by destruct (is_zero (default JUndefined (assoc "length" fields))).
Qed.

Lemma run_without_tasks evs : forall pl,
  tasks pl = [] ->
  tasks (run evs pl) = []
  /\ main (run evs pl) = main pl
  /\ responses (world (run evs pl)) = responses (world pl)
  /\ issued (world (run evs pl)) = issued (world pl)
  /\ cache (world (run evs pl)) = cache (world pl).
Proof.
  induction evs as [|ev evs IH]; intros pl Hts; cbn [run]; [done|].
  assert (Hstep : tasks (step ev pl) = []
                  /\ main (step ev pl) = main pl
                  /\ responses (world (step ev pl)) = responses (world pl)
                  /\ issued (world (step ev pl)) = issued (world pl)
                  /\ cache (world (step ev pl)) = cache (world pl)).
  { destruct ev as [dt|i|i o]; cbn; rewrite ?Hts; done. }
  destruct Hstep as (H1 & H2 & H3 & H4 & H5).
  destruct (IH _ H1) as (I1 & I2 & I3 & I4 & I5). repeat split; congruence.
Qed.

(** ** Where the content of an entry comes from *)

Lemma traced_bind (Q1 Q : option (ExtCall * Outcome) -> JsValue -> Prop) p f :
  forall last,
  traced Q1 last p ->
  (forall l v, Q1 l v -> traced Q l (f v)) ->
  traced Q last (bind p f).
Proof.
  induction p as [v|e|op k IH|q IH|call k IH|ps k IH]; intros last Hp Hf; cbn in *; auto.
Qed.

Lemma traced_try (Q : option (ExtCall * Outcome) -> JsValue -> Prop) p h :
  forall last,
  traced Q last p ->
  (forall l e, traced Q l (h e)) ->
  traced Q last (try_catch p h).
Proof.
  induction p as [v|e|op k IH|q IH|call k IH|ps k IH]; intros last Hp Hh; cbn in *; auto.
Qed.

Lemma traced_await_async (Q : option (ExtCall * Outcome) -> JsValue -> Prop) p last :
  traced Q last p -> traced Q last (await_async p).
Proof.
  intros Hp. unfold await_async. apply traced_try; [|done].
  eapply traced_bind; [exact Hp|]. auto.
Qed.

Lemma traced_of_task_inv (Q : JsValue -> Prop) p : forall last,
  task_inv Q p -> traced (fun _ v => Q v) last p.
Proof.
  induction p as [v|e|op k IH|q IH|call k IH|ps k IH]; intros last Hp; cbn in *; auto.
  destruct Hp as [_ Hk]. auto.
Qed.

Lemma traced_generateEmailContent env recipient companyInfo last :
  traced (fun l v => exists prompt completion s,
            prompt_for recipient companyInfo = inl prompt
            /\ l = Some (ChatCompletionsCreate (openai env) (completion_params prompt),
                         Resolved completion)
            /\ completion_content completion = inl (JStr s)
            /\ v = JStr (trim s))
    last (generateEmailContent env recipient companyInfo).
Proof.
  unfold generateEmailContent. apply traced_try.
  - destruct (prompt_for recipient companyInfo) as [prompt|]; cbn; [|done].
    intros [completion|e]; cbn; [|done].
    destruct (completion_content completion) as [content|] eqn:Hc; cbn; [|done].
    destruct content; cbn; eauto 10.
  - intros l e. destruct (get_prop recipient "email") as [email|]; cbn; [|done].
    destruct (ToString email); cbn; done.
Qed.

Lemma traced_emailPromise env recipient :
  traced (generated_for env recipient) None (emailPromise env recipient).
Proof.
  unfold emailPromise.
  destruct (get_prop recipient "companyName") as [companyName|]; cbn [lift bind]; [|done].
  eapply traced_bind.
  { apply traced_await_async, (traced_of_task_inv (fun _ => True)).
    by eapply task_inv_fetchCompanyInfo. }
  intros l companyInfo _. eapply traced_bind.
  { apply traced_await_async, traced_generateEmailContent. }
  intros l' v (prompt & completion & s & Hprompt & -> & Hc & ->).
  destruct (get_prop recipient "email") as [email|] eqn:Hemail; cbn; [|done].
  unfold generated_for. eauto 10.
Qed.

Lemma advance_traced (Q : option (ExtCall * Outcome) -> JsValue -> Prop) p :
  forall last w,
  traced Q last p ->
  traced Q last (advance w p).2
  /\ (forall call k, (advance w p).2 = Await call k -> call ∈ issued (advance w p).1).
Proof.
  induction p as [v|e|op k IH|q IH|call k IH|ps k IH]; intros last w Hp;
    cbn [advance]; try (split; [exact Hp|done]).
  - destruct (do_sync op w) as [w1 a]. by apply IH.
  - split; [exact Hp|]. intros call' k' [= <- _]. cbn. apply elem_of_app. right. constructor.
Qed.

Lemma advance_issued_extends p : forall w,
  exists calls, issued (advance w p).1 = issued w ++ calls.
Proof.
  induction p as [v|e|op k IH|q IH|call k IH|ps k IH]; intros w; cbn [advance];
    try (exists []; by rewrite app_nil_r).
  - destruct (do_sync op w) as [w1 a] eqn:Hop.
    destruct (IH a w1) as [calls Hc]. exists calls. rewrite Hc. f_equal.
    destruct op; cbn in Hop; by inversion Hop.
  - by exists [call].
Qed.

Lemma rejoin_tasks pl : tasks (rejoin pl) = tasks pl.
Proof.
  unfold rejoin. destruct (main pl); try done.
  destruct (joined (tasks pl)); [|done]. by destruct (advance (world pl) (k o)).
Qed.

Lemma rejoin_issued_extends pl :
  exists calls, issued (world (rejoin pl)) = issued (world pl) ++ calls.
Proof.
  unfold rejoin.
  destruct (main pl); try (exists []; by rewrite app_nil_r).
  destruct (joined (tasks pl)); [|exists []; by rewrite app_nil_r].
  destruct (advance_issued_extends (k o) (world pl)) as [calls Hc].
  destruct (advance (world pl) (k o)). by exists calls.
Qed.

Lemma spawn_origin env rs : forall w,
  (exists calls, issued (spawn w (map (emailPromise env) rs)).1 = issued w ++ calls)
  /\ forall i r t,
       rs !! i = Some r ->
       (spawn w (map (emailPromise env) rs)).2 !! i = Some t ->
       traced (generated_for env r) None t
       /\ (forall call k, t = Await call k ->
             call ∈ issued (spawn w (map (emailPromise env) rs)).1).
Proof.
  induction rs as [|r0 rs IH]; intros w; cbn [map spawn].
  { split; [exists []; by rewrite app_nil_r|]. intros i r t Hr. by destruct i. }
  destruct (advance_traced (generated_for env r0) (emailPromise env r0) None w
              (traced_emailPromise env r0)) as [Ht0 Hq0].
  destruct (advance_issued_extends (emailPromise env r0) w) as [calls0 Hc0].
  destruct (advance w (emailPromise env r0)) as [w1 t0]. cbn in Ht0, Hq0, Hc0.
  destruct (IH w1) as [[calls Hc] Hrest].
  destruct (spawn w1 (map (emailPromise env) rs)) as [w2 ts]. cbn in Hc, Hrest |- *.
  split; [exists (calls0 ++ calls); rewrite Hc, Hc0; by rewrite app_assoc|].
  intros i r t Hr Ht. destruct i as [|i]; cbn in Hr, Ht.
  - injection Hr as <-. injection Ht as <-. split; [exact Ht0|].
    intros call k Heq. rewrite Hc. apply elem_of_app. left. by eapply Hq0.
  - by apply (Hrest i).
Qed.

Lemma boot_origin env w req rs :
  get_prop (body req) "recipients" = inl (JArr rs) ->
  rs <> [] ->
  origin_inv env rs [] (boot w (generateEmailController env req)).
Proof.
  intros Hrs Hne.
  assert (Hadv : advance w (generateEmailController env req)
                 = (w, All (map (emailPromise env) rs) generate_join)).
  { unfold generateEmailController. rewrite Hrs. by destruct rs. }
  unfold boot. rewrite Hadv.
  destruct (spawn_origin env rs w) as [_ Hts].
  destruct (spawn w (map (emailPromise env) rs)) as [w2 ts]. cbn in Hts.
  intros i r t Hr Ht. rewrite rejoin_tasks in Ht. cbn in Ht.
  destruct (Hts i r t Hr Ht) as [Htr Hq].
  exists None. split; [exact Htr|]. split; [done|].
  intros call k Heq.
  destruct (rejoin_issued_extends
              {| world := w2; main := All (map (emailPromise env) rs) generate_join;
                 tasks := ts |}) as [calls ->].
  apply elem_of_app. left. by eapply Hq.
Qed.

Lemma continue_origin env rs evs pl i0 p ev last0 :
  origin_inv env rs evs pl ->
  (forall r, rs !! i0 = Some r -> traced (generated_for env r) last0 p) ->
  (forall call o, last0 = Some (call, o) ->
     call ∈ issued (world pl) /\ Deliver i0 o ∈ evs ++ [ev]) ->
  origin_inv env rs (evs ++ [ev]) (continue pl i0 p).
Proof.
  intros Hinv Hp Hlast i r t Hr Ht. unfold continue in *.
  destruct (advance_issued_extends p (world pl)) as [calls1 Hc1].
  pose proof (fun r Hr => advance_traced (generated_for env r) p last0 (world pl) (Hp r Hr))
    as Hadv.
  destruct (advance (world pl) p) as [w' t'] eqn:Hadv_eq. cbn in Hc1, Hadv.
  destruct (rejoin_issued_extends
              {| world := w'; main := main pl; tasks := <[i0:=t']> (tasks pl) |})
    as [calls2 Hc2].
  cbn in Hc2. rewrite rejoin_tasks in Ht. cbn in Ht.
  assert (Hmono : forall call, call ∈ issued (world pl) ->
            call ∈ issued (world (rejoin {| world := w'; main := main pl;
                                           tasks := <[i0:=t']> (tasks pl) |}))).
  { intros call Hin. rewrite Hc2, Hc1. apply elem_of_app. left. apply elem_of_app. by left. }
  destruct (decide (i = i0)) as [->|Hne].
  - assert (i0 < length (tasks pl))%nat as Hlt.
    { apply lookup_lt_Some in Ht. by rewrite length_insert in Ht. }
    rewrite list_lookup_insert_eq in Ht by exact Hlt. injection Ht as <-.
    destruct (Hadv r Hr) as [Htr Hq].
    exists last0. split; [exact Htr|]. split.
    + intros call o Heq. destruct (Hlast call o Heq) as [Hin Hev]. split; [auto|exact Hev].
    + intros call k Heq. rewrite Hc2. apply elem_of_app. left. by eapply Hq.
  - rewrite list_lookup_insert_ne in Ht by done.
    destruct (Hinv i r t Hr Ht) as (last & Htr & Hjust & Hq).
    exists last. split; [exact Htr|]. split.
    + intros call o Heq. destruct (Hjust call o Heq) as [Hin Hev].
      split; [auto|]. apply elem_of_app. by left.
    + intros call k Heq. apply Hmono. by eapply Hq.
Qed.

Lemma step_origin env rs evs ev pl :
  origin_inv env rs evs pl -> origin_inv env rs (evs ++ [ev]) (step ev pl).
Proof.
  intros Hinv.
  assert (Hsame : forall pl',
    tasks pl' = tasks pl -> issued (world pl') = issued (world pl) ->
    origin_inv env rs (evs ++ [ev]) pl').
  { intros pl' Hts Hi i r t Hr Ht. rewrite Hts in Ht.
    destruct (Hinv i r t Hr Ht) as (last & Htr & Hjust & Hq).
    exists last. rewrite Hi. split; [exact Htr|]. split; [|exact Hq].
    intros call o Heq. destruct (Hjust call o Heq) as [Hin Hev].
    split; [exact Hin|]. apply elem_of_app. by left. }
  destruct ev as [dt|i0|i0 o]; cbn [step].
  - by apply Hsame.
  - destruct (tasks pl !! i0) as [t0|] eqn:Hi0; [|by apply Hsame].
    destruct t0; try by apply Hsame.
    destruct (decide (is_Some (rs !! i0))) as [[r0 Hr0]|Hnone].
    + destruct (Hinv i0 r0 _ Hr0 Hi0) as (last & Htr & Hjust & _).
      apply (continue_origin env rs evs pl i0 t0 (Resume i0) last Hinv).
      * intros r Hr. rewrite Hr0 in Hr. by injection Hr as <-.
      * intros call o Heq. destruct (Hjust call o Heq) as [Hin Hev].
        split; [exact Hin|]. apply elem_of_app. by left.
    + apply (continue_origin env rs evs pl i0 t0 (Resume i0) None Hinv).
      * intros r Hr. destruct Hnone. eauto.
      * done.
  - destruct (tasks pl !! i0) as [t0|] eqn:Hi0; [|by apply Hsame].
    destruct t0; try by apply Hsame.
    destruct (decide (is_Some (rs !! i0))) as [[r0 Hr0]|Hnone].
    + destruct (Hinv i0 r0 _ Hr0 Hi0) as (last & Htr & _ & Hq).
      apply (continue_origin env rs evs pl i0 (k o) (Deliver i0 o) (Some (call, o)) Hinv).
      * intros r Hr. rewrite Hr0 in Hr. injection Hr as <-. apply Htr.
      * intros call' o' [= <- <-]. split; [by eapply Hq|]. apply elem_of_app. right. constructor.
    + apply (continue_origin env rs evs pl i0 (k o) (Deliver i0 o) None Hinv).
      * intros r Hr. destruct Hnone. eauto.
      * done.
Qed.

Lemma run_origin env rs evs : forall evs0 pl,
  origin_inv env rs evs0 pl -> origin_inv env rs (evs0 ++ evs) (run evs pl).
Proof.
  induction evs as [|ev evs IH]; intros evs0 pl Hinv; cbn [run].
  - by rewrite app_nil_r.
  - replace (evs0 ++ ev :: evs) with ((evs0 ++ [ev]) ++ evs) by (by rewrite <- app_assoc).
    by apply IH, step_origin.
Qed.

(** ** The cases that the specification lists *)

(** The first fetch of a company issues one call and stores the answer;
    the second, within the hour, issues none. *)
Example fetch_twice :
  let w1 := (exec (service_up acme_info) fresh (fetchCompanyInfo acme 3)).1 in
  issued w1 = [company_call acme]
  /\ cache w1 !! company_key acme = Some (acme_info, 3600005%N)
  /\ exec service_down (elapse 1000 w1) (fetchCompanyInfo acme 3)
     = (elapse 1000 w1, Ret acme_info).
Proof. vm_compute. auto. Qed.

(** After the hour the entry is gone. *)
Example fetch_after_expiry :
  let w1 := (exec (service_up acme_info) fresh (fetchCompanyInfo acme 3)).1 in
  issued (exec (service_up acme_info) (elapse 3600001 w1) (fetchCompanyInfo acme 3)).1
  = [company_call acme; company_call acme].
Proof. vm_compute. reflexivity. Qed.

Example send_one_email :
  let w1 := (exec (service_up JNull) fresh
               (emailSending sample_env (send_request (JArr [email_a])))).1 in
  issued w1
  = [SendMail (transporter sample_env)
       (JObj [("from", JStr "your-email@gmail.com"); ("to", JStr "a@x.com");
              ("subject", JStr "Subject A"); ("text", JStr "Body line 1")])]
  /\ responses w1 = [sent_ok].
Proof. vm_compute. auto. Qed.

(** Two recipients of one company, started together, both miss the cache:
    each issues its own request. *)
Example generate_two_of_one_company :
  issued (world (boot fresh
    (generateEmailController sample_env
       (generate_request (JArr [recipient_a; recipient_a])))))
  = [company_call acme; company_call acme].
Proof. vm_compute. reflexivity. Qed.

(** A request whose [recipients] is not an array fails in [map]. *)
Example generate_not_an_array :
  responses (world (boot fresh
    (generateEmailController sample_env (generate_request (JNum 7)))))
  = [generate_failed].
Proof. vm_compute. reflexivity. Qed.

(** * The claims *)

(** C1, as amended: when the cache entry of a company is present,
    unexpired and holds a truthy value, [fetchCompanyInfo] returns that
    value at once: within the turn, and with the world left as it was, so
    no external call is issued and the retry logic logs nothing.  In
    particular, after a fetch that found nothing usable in the cache and
    returned the truthy value [v], a second call for the same company at
    most the time to live later returns [v] and issues no external call.
    The company name is one that a template literal can print: without
    that there is no cache key. *)
Theorem fetch_served_from_cache (o : Oracle) (companyName : JsValue) (retries : Z)
    (v : JsValue) :
  stringable companyName = true ->
  truthy v = true ->
  (forall w expiration,
      cache w !! company_key companyName = Some (v, expiration) ->
      (clock w <= expiration)%N ->
      exec o w (fetchCompanyInfo companyName retries) = (w, Ret v)
      /\ advance w (fetchCompanyInfo companyName retries) = (w, Ret v))
  /\ (forall o1 retries1 w w1 dt,
        truthy (NodeCache_get (company_key companyName) w) = false ->
        exec o1 w (fetchCompanyInfo companyName retries1) = (w1, Ret v) ->
        (dt <= stdTTL * 1000)%N ->
        exec o (elapse dt w1) (fetchCompanyInfo companyName retries)
        = (elapse dt w1, Ret v)).
Proof.
  intros Hs Hv. destruct (stringable_inv companyName Hs) as [name Hname]. split.
  - intros w expiration Hk Ht. by eapply fetch_hit.
  - intros o1 retries1 w w1 dt Hmiss Hrun Hdt.
    apply (fetch_hit o companyName name Hname (elapse dt w1) retries v
             (clock w1 + stdTTL * 1000)%N);
      [|cbn; lia|exact Hv].
    cbn. by eapply fetch_stores.
Qed.

Lemma fetch_served_from_cache_witness :
  exec service_down acme_cached (fetchCompanyInfo acme 3) = (acme_cached, Ret acme_info)
  /\ let w1 := (exec first_call_fails fresh (fetchCompanyInfo acme 3)).1 in
     exec service_down (elapse 3600000 w1) (fetchCompanyInfo acme 3)
     = (elapse 3600000 w1, Ret acme_info).
Proof.
  destruct (fetch_served_from_cache service_down acme 3 acme_info eq_refl eq_refl)
    as [Hhit Hsecond].
  split.
  - apply (Hhit acme_cached 3600000%N); [vm_compute; reflexivity|vm_compute; discriminate].
  - apply (Hsecond first_call_fails 3%Z fresh);
      [vm_compute; reflexivity|vm_compute; reflexivity|vm_compute; discriminate].
Defined.

(** C1, as stated, fails: the company API answers the first fetch with
    the empty string; the entry is then present and unexpired, and the
    second call, made at once, issues an external call all the same. *)
Lemma fetch_falsy_entry_refetched :
  let w1 := (exec (service_up (JStr "")) fresh (fetchCompanyInfo acme 3)).1 in
  cache w1 !! company_key acme = Some (JStr "", 3600005%N)
  /\ (clock w1 <= 3600005)%N
  /\ issued (exec (service_up (JStr "")) w1 (fetchCompanyInfo acme 3)).1
     = issued w1 ++ [company_call acme].
Proof.
  split; [vm_compute; reflexivity|]. split; [vm_compute; discriminate|].
  vm_compute. reflexivity.
Qed.

(** C2: when [cache.get] finds nothing for the company and every
    external call fails, [fetchCompanyInfo] with [retries = N] issues
    exactly [N + 1] external calls, all of them the request for that
    company, and returns [null]; it does not throw.  The company name is
    one that a template literal can print, as every string is. *)
Theorem fetch_exhausted_retries (o : Oracle) (companyName : JsValue) (N : nat) (w : World) :
  stringable companyName = true ->
  NodeCache_get (company_key companyName) w = JUndefined ->
  (forall n c, exists e, outcome (o n c) = Rejected e) ->
  exists w',
    exec o w (fetchCompanyInfo companyName (Z.of_nat N)) = (w', Ret JNull)
    /\ issued w' = issued w ++ replicate (S N) (company_call companyName).
Proof.
  intros Hs Hmiss Hfail. destruct (stringable_inv companyName Hs) as [name Hname].
  destruct (fetch_all_fail o companyName name Hname N w Hmiss Hfail)
    as (w' & Hrun & Hi & _).
  eauto.
Qed.

Lemma fetch_exhausted_retries_witness :
  exists w',
    exec service_down fresh (fetchCompanyInfo acme 3) = (w', Ret JNull)
    /\ issued w' = replicate 4 (company_call acme).
Proof.
  apply (fetch_exhausted_retries service_down acme 3 fresh).
  - reflexivity.
  - vm_compute. reflexivity.
  - intros n c. eexists. reflexivity.
Defined.

(** C9: when the value stored under the key of the company is falsy,
    an unexpired entry notwithstanding, [fetchCompanyInfo] goes on to
    issue the external call; and whatever data the call returns, falsy
    or not, is stored under the key and returned.  The company name is
    one that a template literal can print, so that it has a key. *)
Theorem fetch_falsy_entry_is_a_miss (o : Oracle) (companyName : JsValue) (retries : Z)
    (w : World) (v : JsValue) (expiration : N) :
  stringable companyName = true ->
  cache w !! company_key companyName = Some (v, expiration) ->
  (clock w <= expiration)%N ->
  truthy v = false ->
  (exists calls,
      issued (exec o w (fetchCompanyInfo companyName retries)).1
      = issued w ++ company_call companyName :: calls)
  /\ (forall response data,
        outcome (o (length (issued w)) (company_call companyName)) = Resolved response ->
        get_prop response "data" = inl data ->
        exists w1,
          exec o w (fetchCompanyInfo companyName retries) = (w1, Ret data)
          /\ cache w1 !! company_key companyName
             = Some (data, (clock w1 + stdTTL * 1000)%N)).
Proof.
  intros Hs Hk Ht Hv. destruct (stringable_inv companyName Hs) as [name Hname].
  assert (Hmiss : truthy (NodeCache_get (company_key companyName) w) = false).
  { by rewrite (NodeCache_get_live _ _ _ _ Hk Ht). }
  split; [by eapply fetch_miss_issues|].
  intros response data Hout Hdata.
  rewrite (fetch_miss o companyName name Hname w retries Hmiss). cbn zeta.
  rewrite Hout, Hdata.
  eexists. split; [reflexivity|]. cbn. by rewrite lookup_insert_eq.
Qed.

Lemma fetch_falsy_entry_is_a_miss_witness :
  let w := (exec (service_up (JNum 0)) fresh (fetchCompanyInfo acme 3)).1 in
  (exists calls,
      issued (exec (service_up JNull) w (fetchCompanyInfo acme 3)).1
      = issued w ++ company_call acme :: calls)
  /\ exists w1,
       exec (service_up JNull) w (fetchCompanyInfo acme 3) = (w1, Ret JNull)
       /\ cache w1 !! company_key acme = Some (JNull, (clock w1 + stdTTL * 1000)%N).
Proof.
  intros w.
  destruct (fetch_falsy_entry_is_a_miss (service_up JNull) acme 3 w (JNum 0) 3600005%N)
    as [Hcall Hstore];
    [reflexivity|vm_compute; reflexivity|vm_compute; discriminate|reflexivity|].
  split; [exact Hcall|].
  apply (Hstore (JObj [("data", JNull); ("response", JStr "250 2.0.0 OK")]) JNull);
    reflexivity.
Defined.

(** C3: the call that [emailSending] issues for an entry of [emails]
    carries as subject the part of [content] before its first newline and
    as text the segments after it joined by newlines, which is the rest of
    [content]; for a [content] without a newline the subject is the whole
    [content] and the text is empty. *)
Theorem send_subject_and_body (env : Env) (o : Oracle) (w : World) (req : Request)
    (items : list JsValue) (k : nat) (item : JsValue) (call : ExtCall) :
  get_prop (body req) "emails" = inl (JArr items) ->
  items !! k = Some item ->
  issued (exec o w (emailSending env req)).1 !! (length (issued w) + k)%nat = Some call ->
  exists to content subject text,
    get_prop item "email" = inl to
    /\ get_prop item "content" = inl (JStr content)
    /\ call = SendMail (transporter env)
                (JObj [("from", JStr "your-email@gmail.com");
                       ("to", to);
                       ("subject", JStr subject);
                       ("text", JStr text)])
    /\ (forall first rest,
          content = first +:+ String LF rest ->
          contains LF first = false ->
          subject = first
          /\ text = join (String LF "") (split LF rest)
          /\ text = rest)
    /\ (contains LF content = false -> subject = content /\ text = "").
Proof.
  intros Hemails Hitem Hcall.
  destruct (emailSending_dispatch env o req items w k call Hemails Hcall)
    as (item' & Hitem' & Hmail).
  assert (item' = item) as -> by congruence.
  unfold mail_call in Hmail.
  destruct (mailOptions item) as [options|] eqn:Hopt; [|done]. injection Hmail as <-.
  destruct (mailOptions_inv item options Hopt) as (to & content & Hto & Hcontent & ->).
  destruct (split_nonempty LF content) as (seg & segs & Hsplit).
  exists to, content, seg, (join (String LF "") segs).
  rewrite Hsplit. cbn.
  split; [exact Hto|]. split; [exact Hcontent|]. split; [reflexivity|]. split.
  - intros first rest -> Hfirst. rewrite split_first in Hsplit by exact Hfirst.
    injection Hsplit as <- <-. split; [reflexivity|]. split; [reflexivity|].
    apply join_split.
  - intros Hnone. rewrite split_single in Hsplit by exact Hnone.
    by injection Hsplit as <- <-.
Qed.

Lemma send_subject_and_body_witness :
  exists to content subject text,
    get_prop email_a "email" = inl to
    /\ get_prop email_a "content" = inl (JStr content)
    /\ SendMail (transporter sample_env)
         (JObj [("from", JStr "your-email@gmail.com"); ("to", JStr "a@x.com");
                ("subject", JStr "Subject A"); ("text", JStr "Body line 1")])
       = SendMail (transporter sample_env)
           (JObj [("from", JStr "your-email@gmail.com");
                  ("to", to);
                  ("subject", JStr subject);
                  ("text", JStr text)])
    /\ (forall first rest,
          content = first +:+ String LF rest ->
          contains LF first = false ->
          subject = first
          /\ text = join (String LF "") (split LF rest)
          /\ text = rest)
    /\ (contains LF content = false -> subject = content /\ text = "").
Proof.
  apply (send_subject_and_body sample_env (service_up JNull) fresh
           (send_request (JArr [email_a; email_b])) [email_a; email_b] 0 email_a);
    reflexivity.
Defined.



(** C8: when [emails] is missing or is not an array, [emailSending]
    answers 400 with the body [{error: "Invalid email data format."}] and
    issues no call; the empty array is accepted: the answer is the 200
    success, again without a call. *)
Theorem send_rejects_malformed_emails (env : Env) (o : Oracle) (w : World) (req : Request)
    (emails : JsValue) :
  get_prop (body req) "emails" = inl emails ->
  (isArray emails = false ->
     exec o w (emailSending env req)
     = (send_response
          {| status := 400; json := JObj [("error", JStr "Invalid email data format.")] |} w,
        Ret JUndefined)
     /\ issued (exec o w (emailSending env req)).1 = issued w)
  /\ (emails = JArr [] ->
      exec o w (emailSending env req) = (send_response sent_ok w, Ret JUndefined)
      /\ issued (exec o w (emailSending env req)).1 = issued w).
Proof.
  intros Hemails. unfold emailSending. rewrite Hemails. split.
  - intros Harr. destruct emails; try discriminate Harr; cbn;
      rewrite ?orb_true_r; by split.
  - intros ->. by split.
Qed.

Lemma send_rejects_malformed_emails_witness :
  let bad_request :=
    {| status := 400; json := JObj [("error", JStr "Invalid email data format.")] |} in
  exec (service_up JNull) fresh (emailSending sample_env (send_request (JStr "not-a-list")))
  = (send_response bad_request fresh, Ret JUndefined)
  /\ exec (service_up JNull) fresh (emailSending sample_env {| body := JObj [] |})
     = (send_response bad_request fresh, Ret JUndefined)
  /\ exec (service_up JNull) fresh (emailSending sample_env (send_request (JArr [])))
     = (send_response sent_ok fresh, Ret JUndefined).
Proof.
  intros bad_request. split; [|split].
  - apply (send_rejects_malformed_emails sample_env (service_up JNull) fresh
             (send_request (JStr "not-a-list")) (JStr "not-a-list") eq_refl).
    reflexivity.
  - apply (send_rejects_malformed_emails sample_env (service_up JNull) fresh
             {| body := JObj [] |} JUndefined eq_refl).
    reflexivity.
  - apply (send_rejects_malformed_emails sample_env (service_up JNull) fresh
             (send_request (JArr [])) (JArr []) eq_refl).
    reflexivity.
Defined.

(** C10: whatever the environment, and so whatever [EMAIL_SENDER], the
    mail options of every call that [emailSending] issues have the
    [from] field ["your-email@gmail.com"]; [to] is the [email] of the
    entry, [subject] and [text] come from its [content]. *)
Theorem send_from_is_constant (env : Env) (o : Oracle) (w : World) (req : Request)
    (k : nat) (call : ExtCall) :
  issued (exec o w (emailSending env req)).1 !! (length (issued w) + k)%nat = Some call ->
  exists items item to content,
    get_prop (body req) "emails" = inl (JArr items)
    /\ items !! k = Some item
    /\ get_prop item "email" = inl to
    /\ get_prop item "content" = inl (JStr content)
    /\ call = SendMail (transporter env)
                (JObj [("from", JStr "your-email@gmail.com");
                       ("to", to);
                       ("subject", default JUndefined (JStr <$> split LF content !! 0%nat));
                       ("text", JStr (join (String LF "") (slice1 (split LF content))))]).
Proof.
  intros Hcall.
  assert (Harr : exists items, get_prop (body req) "emails" = inl (JArr items)).
  { destruct (get_prop (body req) "emails") as [[| | | | |items|]|] eqn:Hemails; eauto;
      rewrite (emailSending_not_array env o req w) in Hcall
        by (rewrite Hemails; congruence);
      apply lookup_lt_Some in Hcall; lia. }
  destruct Harr as [items Hemails].
  destruct (emailSending_dispatch env o req items w k call Hemails Hcall)
    as (item & Hitem & Hmail).
  unfold mail_call in Hmail.
  destruct (mailOptions item) as [options|] eqn:Hopt; [|done]. injection Hmail as <-.
  destruct (mailOptions_inv item options Hopt) as (to & content & Hto & Hcontent & ->).
  exists items, item, to, content. auto.
Qed.

Lemma send_from_is_constant_witness :
  exists items item to content,
    get_prop (body (send_request (JArr [email_a; email_b]))) "emails" = inl (JArr items)
    /\ items !! 1%nat = Some item
    /\ get_prop item "email" = inl to
    /\ get_prop item "content" = inl (JStr content)
    /\ SendMail (transporter sample_env)
         (JObj [("from", JStr "your-email@gmail.com"); ("to", JStr "b@x.com");
                ("subject", JStr "Only a subject"); ("text", JStr "")])
       = SendMail (transporter sample_env)
           (JObj [("from", JStr "your-email@gmail.com");
                  ("to", to);
                  ("subject", default JUndefined (JStr <$> split LF content !! 0%nat));
                  ("text", JStr (join (String LF "") (slice1 (split LF content))))]).
Proof.
  apply (send_from_is_constant sample_env (service_up JNull) fresh
           (send_request (JArr [email_a; email_b])) 1).
  reflexivity.
Defined.

(** C5: whenever the pipeline of some recipient has thrown, the request
    to [generateEmailController] has been answered with the 500 failure
    [{error: "Failed to generate emails"}] and with nothing else: no list
    of emails, partial or not, is sent. *)
Theorem generate_fails_as_a_whole (env : Env) (w : World) (req : Request)
    (evs : list Event) (j : nat) (e : JsError) :
  tasks (run evs (boot w (generateEmailController env req))) !! j = Some (Throw e) ->
  responses (world (run evs (boot w (generateEmailController env req))))
  = responses w ++ [generate_failed].
Proof.
  intros Hj.
  destruct (get_prop (body req) "recipients") as [[| | | | |[|r rs]|]|] eqn:Hrs;
    try (rewrite (proj1 (run_without_tasks evs _
                           (boot_without_tasks env w req
                              ltac:(intros ? ?; rewrite Hrs; congruence)))) in Hj;
         by destruct j).
  destruct (run_inv w (r :: rs) evs _ (boot_generate env w req (r :: rs) Hrs ltac:(done)))
    as [_ [(_ & Hjoin & _)|[(_ & vs & Hvs & _)|(_ & _ & Hr)]]].
  - destruct (thrown_first _ (ex_intro _ j (ex_intro _ e Hj))) as [e' He'].
    unfold joined in Hjoin. by rewrite He' in Hjoin.
  - rewrite Hvs, list_lookup_fmap in Hj. by destruct (vs !! j).
  - exact Hr.
Qed.

Lemma generate_fails_as_a_whole_witness :
  responses (world (run [] (boot fresh
    (generateEmailController sample_env (generate_request (JArr [recipient_a; JNull]))))))
  = [generate_failed].
Proof.
  apply (generate_fails_as_a_whole sample_env fresh
           (generate_request (JArr [recipient_a; JNull])) [] 1
           (TypeError "Cannot read properties of null (reading 'companyName')")).
  vm_compute. reflexivity.
Defined.

(** C6: for a non-empty list of recipients, once every pipeline has
    returned, the request to [generateEmailController] has been answered
    with 200 and the list of the values returned, one per recipient and in
    the order of the recipients.  The entry at position [i] is the object
    of the [email] of the recipient at position [i] and of a [content]
    that was generated for that recipient: the completion request for the
    prompt made of the recipient's [email], [description] and
    [companyName] was issued, an answer to it was delivered to the
    pipeline at position [i], and the content is the trimmed text
    [choices[0].message.content] of that answer. *)
Theorem generate_one_email_per_recipient (env : Env) (w : World) (req : Request)
    (rs : list JsValue) (evs : list Event) (vs : list JsValue) :
  get_prop (body req) "recipients" = inl (JArr rs) ->
  rs <> [] ->
  tasks (run evs (boot w (generateEmailController env req))) = Ret <$> vs ->
  responses (world (run evs (boot w (generateEmailController env req))))
  = responses w ++ [generated vs]
  /\ Forall2 email_of rs vs
  /\ forall i r v,
       rs !! i = Some r ->
       vs !! i = Some v ->
       exists companyInfo prompt completion s email,
         prompt_for r companyInfo = inl prompt
         /\ ChatCompletionsCreate (openai env) (completion_params prompt)
            ∈ issued (world (run evs (boot w (generateEmailController env req))))
         /\ Deliver i (Resolved completion) ∈ evs
         /\ completion_content completion = inl (JStr s)
         /\ get_prop r "email" = inl email
         /\ v = JObj [("email", email); ("content", JStr (trim s))].
Proof.
  intros Hrs Hne Hvs. split; [|split].
  - destruct (run_inv w rs evs _ (boot_generate env w req rs Hrs Hne))
      as [Hts [(_ & Hjoin & _)|[(_ & vs' & Hvs' & Hr)|(_ & (j & e & Hj) & _)]]].
    + by rewrite Hvs, joined_returned in Hjoin.
    + rewrite Hvs in Hvs'. apply fmap_Ret_inj in Hvs'. by subst vs'.
    + rewrite Hvs, list_lookup_fmap in Hj. by destruct (vs !! j).
  - destruct (run_inv w rs evs _ (boot_generate env w req rs Hrs Hne)) as [Hts _].
    rewrite Hvs in Hts. by apply Forall2_fmap_r in Hts.
  - intros i r v Hr Hv.
    pose proof (run_origin env rs evs [] _ (boot_origin env w req rs Hrs Hne)) as Hinv.
    destruct (Hinv i r (Ret v) Hr) as (last & Htr & Hjust & _).
    { by rewrite Hvs, list_lookup_fmap, Hv. }
    destruct Htr as (companyInfo & prompt & completion & s & email
                     & Hprompt & Hlast & Hc & Hemail & ->).
    destruct (Hjust _ _ Hlast) as [Hin Hev].
    exists companyInfo, prompt, completion, s, email. by repeat split.
Qed.

Lemma generate_one_email_per_recipient_witness :
  responses (world (run all_answered (boot fresh
    (generateEmailController sample_env (generate_request (JArr [recipient_a]))))))
  = [generated [entry_a]]
  /\ Forall2 email_of [recipient_a] [entry_a]
  /\ forall i r v,
       [recipient_a] !! i = Some r ->
       [entry_a] !! i = Some v ->
       exists companyInfo prompt completion s email,
         prompt_for r companyInfo = inl prompt
         /\ ChatCompletionsCreate (openai sample_env) (completion_params prompt)
            ∈ issued (world (run all_answered (boot fresh
                (generateEmailController sample_env
                   (generate_request (JArr [recipient_a]))))))
         /\ Deliver i (Resolved completion) ∈ all_answered
         /\ completion_content completion = inl (JStr s)
         /\ get_prop r "email" = inl email
         /\ v = JObj [("email", email); ("content", JStr (trim s))].
Proof.
  apply (generate_one_email_per_recipient sample_env fresh
           (generate_request (JArr [recipient_a])) [recipient_a] all_answered [entry_a]).
  - reflexivity.
  - discriminate.
  - vm_compute. reflexivity.
Defined.

(** C7: when [recipients] is missing, [undefined] or the empty array,
    [generateEmailController] answers 400 with the body
    [{error: "Invalid request data"}], starts no pipeline, issues no
    external call and leaves the cache as it is, whatever happens
    afterwards. *)
Theorem generate_rejects_missing_recipients (env : Env) (w : World) (req : Request)
    (recipients : JsValue) (evs : list Event) :
  get_prop (body req) "recipients" = inl recipients ->
  recipients = JUndefined \/ recipients = JArr [] ->
  responses (world (run evs (boot w (generateEmailController env req))))
  = responses w ++ [invalid_request]
  /\ tasks (run evs (boot w (generateEmailController env req))) = []
  /\ issued (world (run evs (boot w (generateEmailController env req)))) = issued w
  /\ cache (world (run evs (boot w (generateEmailController env req)))) = cache w.
Proof.
  intros Hrs Hcases.
  assert (Hboot : boot w (generateEmailController env req)
                  = {| world := send_response invalid_request w;
                       main := Ret JUndefined; tasks := [] |}).
  { unfold boot, generateEmailController. rewrite Hrs. by destruct Hcases as [->| ->]. }
  rewrite Hboot.
  destruct (run_without_tasks evs _ (eq_refl :
    tasks {| world := send_response invalid_request w;
             main := Ret JUndefined; tasks := [] |} = []))
    as (Ht & _ & Hr & Hi & Hc).
  by rewrite Ht, Hr, Hi, Hc.
Qed.

Lemma generate_rejects_missing_recipients_witness :
  let empty_list :=
    run all_answered
      (boot acme_cached (generateEmailController sample_env (generate_request (JArr [])))) in
  let missing :=
    run [] (boot acme_cached (generateEmailController sample_env {| body := JObj [] |})) in
  responses (world empty_list) = [invalid_request]
  /\ issued (world empty_list) = []
  /\ responses (world missing) = [invalid_request].
Proof.
  intros empty_list missing.
  destruct (generate_rejects_missing_recipients sample_env acme_cached
              (generate_request (JArr [])) (JArr []) all_answered eq_refl
              (or_intror eq_refl)) as (Hr & _ & Hi & _).
  split; [exact Hr|]. split; [exact Hi|].
  apply (generate_rejects_missing_recipients sample_env acme_cached
           {| body := JObj [] |} JUndefined [] eq_refl (or_introl eq_refl)).
Defined.

(** * Further properties of the code *)

(** ** Running a body alone, compositionally *)

Lemma exec_bind_ret o p f : forall w w1 v,
  exec o w p = (w1, Ret v) -> exec o w (bind p f) = exec o w1 (f v).
Proof.
  induction p as [v0|e|op k IH|q IH|call k IH|ps k IH]; intros w w1 v; cbn [exec bind].
  - by intros [= <- <-].
  - done.
  - destruct (do_sync op w) as [w' a]. apply IH.
  - apply IH.
  - apply IH.
  - done.
Qed.

Lemma exec_bind_throw o p f : forall w w1 e,
  exec o w p = (w1, Throw e) -> exec o w (bind p f) = (w1, Throw e).
Proof.
  induction p as [v0|e0|op k IH|q IH|call k IH|ps k IH]; intros w w1 e; cbn [exec bind].
  - done.
  - by intros [= <- <-].
  - destruct (do_sync op w) as [w' a]. apply IH.
  - apply IH.
  - apply IH.
  - done.
Qed.

Lemma exec_try_ret o p h : forall w w1 v,
  exec o w p = (w1, Ret v) -> exec o w (try_catch p h) = (w1, Ret v).
Proof.
  induction p as [v0|e|op k IH|q IH|call k IH|ps k IH]; intros w w1 v; cbn [exec try_catch].
  - by intros [= <- <-].
  - done.
  - destruct (do_sync op w) as [w' a]. apply IH.
  - apply IH.
  - apply IH.
  - done.
Qed.

Lemma exec_try_throw o p h : forall w w1 e,
  exec o w p = (w1, Throw e) -> exec o w (try_catch p h) = exec o w1 (h e).
Proof.
  induction p as [v0|e0|op k IH|q IH|call k IH|ps k IH]; intros w w1 e; cbn [exec try_catch].
  - done.
  - by intros [= <- <-].
  - destruct (do_sync op w) as [w' a]. apply IH.
  - apply IH.
  - apply IH.
  - done.
Qed.

Lemma exec_await_async_ret o p w w1 v :
  exec o w p = (w1, Ret v) -> exec o w (await_async p) = (w1, Ret v).
Proof.
  intros Hp. unfold await_async. apply exec_try_ret.
  by rewrite (exec_bind_ret _ _ _ _ _ _ Hp).
Qed.

Lemma exec_await_async_throw o p w w1 e :
  exec o w p = (w1, Throw e) -> exec o w (await_async p) = (w1, Throw e).
Proof.
  intros Hp. unfold await_async.
  rewrite (exec_try_throw o _ _ w w1 e); [done|]. by apply exec_bind_throw.
Qed.

(** ** fetchCompanyInfo, further *)

Section FetchFurther.

Variable o : Oracle.
Variable companyName : JsValue.
Variable name : string.
Hypothesis Hname : ToString companyName = inl name.

Lemma fetch_calls (n : nat) : forall retries w,
  Z.to_nat retries = n ->
  exists m : nat,
    issued (exec o w (fetchCompanyInfo companyName retries)).1
    = issued w ++ replicate m (company_call companyName)
    /\ (m <= S n)%nat
    /\ (truthy (NodeCache_get (company_key companyName) w) = false -> (1 <= m)%nat)
    /\ responses (exec o w (fetchCompanyInfo companyName retries)).1 = responses w.
Proof.
  induction n as [n IH] using lt_wf_ind. intros retries w Hn.
  destruct (truthy (NodeCache_get (company_key companyName) w)) eqn:Hget.
  { destruct (fetch_cached o companyName name Hname w retries Hget) as [-> _].
    exists 0%nat. cbn. rewrite app_nil_r. repeat split; [lia|done]. }
  rewrite (fetch_miss o companyName name Hname) by exact Hget. cbn zeta.
  set (call := company_call companyName).
  set (reply := o (length (issued w)) call).
  set (w1 := elapse (delay reply) (issue call w)).
  assert (Hone : exists m : nat,
    issued w ++ [call] = issued w ++ replicate m call
    /\ (m <= S n)%nat /\ (false = false -> (1 <= m)%nat)).
  { exists 1%nat. repeat split; lia. }
  assert (Hretry : forall error, exists m : nat,
    issued (retry o companyName w1 retries error).1 = issued w ++ replicate m call
    /\ (m <= S n)%nat /\ (false = false -> (1 <= m)%nat)
    /\ responses (retry o companyName w1 retries error).1 = responses w).
  { intros error. unfold retry. destruct (decide (0 < retries)%Z).
    - match goal with |- context [exec o ?w2 _] =>
        destruct (IH (Z.to_nat (retries - 1)) ltac:(lia) (retries - 1)%Z w2 eq_refl)
          as (m & Hi & Hm & _ & Hr) end.
      exists (S m). rewrite Hi, Hr. cbn. rewrite <- app_assoc.
      repeat split; [lia|lia].
    - destruct Hone as (m & Hi & Hm & H1). exists m. cbn. auto. }
  destruct (outcome reply) as [response|error]; [|apply Hretry].
  destruct (get_prop response "data") as [data|error]; [|apply Hretry].
  destruct Hone as (m & Hi & Hm & H1). exists m. cbn. auto.
Qed.

Lemma fetch_succeeds_after (k : nat) :
  forall retries w response data,
  truthy (NodeCache_get (company_key companyName) w) = false ->
  (forall i, (i < k)%nat ->
     exists e, outcome (o (length (issued w) + i)%nat (company_call companyName))
               = Rejected e) ->
  outcome (o (length (issued w) + k)%nat (company_call companyName)) = Resolved response ->
  get_prop response "data" = inl data ->
  (Z.of_nat k <= retries)%Z ->
  exists w',
    exec o w (fetchCompanyInfo companyName retries) = (w', Ret data)
    /\ issued w' = issued w ++ replicate (S k) (company_call companyName)
    /\ cache w' !! company_key companyName = Some (data, (clock w' + stdTTL * 1000)%N).
Proof.
  induction k as [|k IH]; intros retries w response data Hmiss Hfail Hok Hdata Hk.
  - rewrite (fetch_miss o companyName name Hname) by exact Hmiss. cbn zeta.
    rewrite Nat.add_0_r in Hok. rewrite Hok, Hdata.
    eexists. split; [reflexivity|]. cbn. split; [done|]. by rewrite lookup_insert_eq.
  - rewrite (fetch_miss o companyName name Hname) by exact Hmiss. cbn zeta.
    destruct (Hfail 0%nat (Nat.lt_0_succ k)) as [e He].
    rewrite Nat.add_0_r in He. rewrite He.
    unfold retry. rewrite decide_True by lia.
    match goal with |- context [exec o ?w2 _] =>
      destruct (IH (retries - 1)%Z w2 response data) as (w' & Hrun & Hi & Hc) end.
    + eapply NodeCache_get_falsy_later; [| |exact Hmiss]; cbn; [reflexivity|lia].
    + intros i Hi. cbn. rewrite length_app. cbn.
      replace (length (issued w) + 1 + i)%nat with (length (issued w) + S i)%nat by lia.
      apply Hfail. lia.
    + cbn. rewrite length_app. cbn.
      by replace (length (issued w) + 1 + k)%nat with (length (issued w) + S k)%nat by lia.
    + exact Hdata.
    + lia.
    + exists w'. split; [exact Hrun|]. split; [|exact Hc].
      rewrite Hi. cbn. by rewrite <- app_assoc.
Qed.

Lemma fetch_frame (n : nat) : forall retries w,
  Z.to_nat retries = n ->
  (forall key, key <> company_key companyName ->
     cache (exec o w (fetchCompanyInfo companyName retries)).1 !! key = cache w !! key)
  /\ (cache (exec o w (fetchCompanyInfo companyName retries)).1 = cache w
      \/ exists v,
           (exec o w (fetchCompanyInfo companyName retries)).2 = Ret v
           /\ cache (exec o w (fetchCompanyInfo companyName retries)).1
                !! company_key companyName
              = Some (v, (clock (exec o w (fetchCompanyInfo companyName retries)).1
                          + stdTTL * 1000)%N)).
Proof.
  induction n as [n IH] using lt_wf_ind. intros retries w Hn.
  destruct (truthy (NodeCache_get (company_key companyName) w)) eqn:Hget.
  { destruct (fetch_cached o companyName name Hname w retries Hget) as [-> _]. cbn. auto. }
  rewrite (fetch_miss o companyName name Hname) by exact Hget. cbn zeta.
  set (call := company_call companyName).
  set (reply := o (length (issued w)) call).
  set (w1 := elapse (delay reply) (issue call w)).
  assert (Hretry : forall error,
    (forall key, key <> company_key companyName ->
       cache (retry o companyName w1 retries error).1 !! key = cache w !! key)
    /\ (cache (retry o companyName w1 retries error).1 = cache w
        \/ exists v,
             (retry o companyName w1 retries error).2 = Ret v
             /\ cache (retry o companyName w1 retries error).1 !! company_key companyName
                = Some (v, (clock (retry o companyName w1 retries error).1
                            + stdTTL * 1000)%N))).
  { intros error. unfold retry. destruct (decide (0 < retries)%Z); [|cbn; auto].
    match goal with |- context [exec o ?w2 _] =>
      destruct (IH (Z.to_nat (retries - 1)) ltac:(lia) (retries - 1)%Z w2 eq_refl)
        as [Hother Hown] end.
    split; [exact Hother|exact Hown]. }
  destruct (outcome reply) as [response|error]; [|apply Hretry].
  destruct (get_prop response "data") as [data|error]; [|apply Hretry].
  cbn. split.
  - intros key Hne. by rewrite lookup_insert_ne.
  - right. exists data. split; [done|]. by rewrite lookup_insert_eq.
Qed.

End FetchFurther.

(** X1: [fetchCompanyInfo] throws only for a [companyName] that has no
    string.  For a name that a template literal can convert, whatever the
    cache holds and whatever the company API answers, for every value of
    [retries], the fetch ends in a return.  For a name that cannot be
    converted (an object with a key [toString] of its own) the conversion
    throws in the [try] block and again in the [catch] block: the fetch
    throws that error and has done nothing. *)
Theorem fetchCompanyInfo_throws_only_unprintable (o : Oracle) (companyName : JsValue)
    (retries : Z) (w : World) :
  match ToString companyName with
  | inl _ => exists w' v, exec o w (fetchCompanyInfo companyName retries) = (w', Ret v)
  | inr e => exec o w (fetchCompanyInfo companyName retries) = (w, Throw e)
  end.
Proof.
  destruct (ToString companyName) as [name|e] eqn:Hname.
  - by eapply fetch_never_throws.
  - by apply fetch_unprintable.
Qed.

(** X2: the number of requests that one call of [fetchCompanyInfo] issues
    is at most [retries + 1] (one when [retries] is negative), whatever
    the answers; for a name that has a string it is at least one when
    [cache.get] gives nothing usable, and for a name that has none it is
    zero.  All of them are the request for that company, and the response
    object is not touched. *)
Theorem fetchCompanyInfo_call_bound (o : Oracle) (companyName : JsValue) (retries : Z)
    (w : World) :
  exists m : nat,
    issued (exec o w (fetchCompanyInfo companyName retries)).1
    = issued w ++ replicate m (company_call companyName)
    /\ (Z.of_nat m <= Z.max retries 0 + 1)%Z
    /\ (if stringable companyName
        then truthy (NodeCache_get (company_key companyName) w) = false -> (1 <= m)%nat
        else m = 0%nat)
    /\ responses (exec o w (fetchCompanyInfo companyName retries)).1 = responses w.
Proof.
  unfold stringable. destruct (ToString companyName) as [name|e] eqn:Hname.
  - destruct (fetch_calls o companyName name Hname (Z.to_nat retries) retries w eq_refl)
      as (m & Hi & Hm & H1 & Hr).
    exists m. repeat split; auto. lia.
  - destruct (fetch_unprintable o companyName retries w e Hname) as [-> _].
    exists 0%nat. cbn. rewrite app_nil_r. repeat split; lia.
Qed.

(** X3: for a name that has a string, when [cache.get] gives nothing
    usable, the first [k] requests fail and the next one succeeds, with
    [k] no more than [retries], then [fetchCompanyInfo] issues exactly
    [k + 1] requests, returns the data of the answer, and leaves that data
    in the cache with the full time to live. *)
Theorem fetchCompanyInfo_succeeds_on_retry (o : Oracle) (companyName : JsValue) (k : nat)
    (retries : Z) (w : World) (response data : JsValue) :
  stringable companyName = true ->
  truthy (NodeCache_get (company_key companyName) w) = false ->
  (forall i, (i < k)%nat ->
     exists e, outcome (o (length (issued w) + i)%nat (company_call companyName))
               = Rejected e) ->
  outcome (o (length (issued w) + k)%nat (company_call companyName)) = Resolved response ->
  get_prop response "data" = inl data ->
  (Z.of_nat k <= retries)%Z ->
  exists w',
    exec o w (fetchCompanyInfo companyName retries) = (w', Ret data)
    /\ issued w' = issued w ++ replicate (S k) (company_call companyName)
    /\ cache w' !! company_key companyName = Some (data, (clock w' + stdTTL * 1000)%N).
Proof.
  intros Hs. destruct (stringable_inv _ Hs) as [name Hname].
  by apply (fetch_succeeds_after o companyName name Hname).
Qed.

Lemma fetchCompanyInfo_succeeds_on_retry_witness :
  exists w',
    exec first_call_fails fresh (fetchCompanyInfo acme 3) = (w', Ret acme_info)
    /\ issued w' = replicate 2 (company_call acme)
    /\ cache w' !! company_key acme = Some (acme_info, (clock w' + stdTTL * 1000)%N).
Proof.
  apply (fetchCompanyInfo_succeeds_on_retry first_call_fails acme 1 3 fresh
           (JObj [("data", acme_info); ("response", JStr "250 2.0.0 OK")]) acme_info).
  - reflexivity.
  - reflexivity.
  - intros i Hi. assert (i = 0%nat) as -> by lia. eexists. reflexivity.
  - reflexivity.
  - reflexivity.
  - lia.
Defined.

(** X4: the entry that a fetch has stored is gone once more than the
    time to live of one hour has passed: the next call for the company
    issues the request again. *)
Theorem fetchCompanyInfo_refetches_after_ttl (o o1 : Oracle) (companyName : JsValue)
    (retries retries1 : Z) (w w1 : World) (v : JsValue) (dt : N) :
  truthy (NodeCache_get (company_key companyName) w) = false ->
  exec o1 w (fetchCompanyInfo companyName retries1) = (w1, Ret v) ->
  truthy v = true ->
  (stdTTL * 1000 < dt)%N ->
  exists calls,
    issued (exec o (elapse dt w1) (fetchCompanyInfo companyName retries)).1
    = issued w1 ++ company_call companyName :: calls.
Proof.
  intros Hmiss Hrun Hv Hdt.
  destruct (ToString companyName) as [name|e] eqn:Hname.
  - apply (fetch_expired_refetches o companyName name Hname (elapse dt w1) retries v
             (clock w1 + stdTTL * 1000)%N).
    + cbn. by eapply (fetch_stores o1 companyName name Hname).
    + cbn. lia.
  - destruct (fetch_unprintable o1 companyName retries1 w e Hname) as [Hthrow _].
    rewrite Hthrow in Hrun. discriminate Hrun.
Qed.

Lemma fetchCompanyInfo_refetches_after_ttl_witness :
  let w1 := (exec (service_up acme_info) fresh (fetchCompanyInfo acme 3)).1 in
  exists calls,
    issued (exec service_down (elapse 3600001 w1) (fetchCompanyInfo acme 3)).1
    = issued w1 ++ company_call acme :: calls.
Proof.
  intros w1.
  apply (fetchCompanyInfo_refetches_after_ttl service_down (service_up acme_info) acme 3 3
           fresh w1 acme_info 3600001%N);
    [reflexivity|vm_compute; reflexivity|reflexivity|vm_compute; reflexivity].
Defined.

(** X5: a call of [fetchCompanyInfo] leaves the cache entries of all
    other keys as they were; its own entry is either left as it was or
    holds the value that the call returns, with the full time to live. *)
Theorem fetchCompanyInfo_cache_frame (o : Oracle) (companyName : JsValue) (retries : Z)
    (w : World) :
  (forall key, key <> company_key companyName ->
     cache (exec o w (fetchCompanyInfo companyName retries)).1 !! key = cache w !! key)
  /\ (cache (exec o w (fetchCompanyInfo companyName retries)).1 = cache w
      \/ exists v,
           (exec o w (fetchCompanyInfo companyName retries)).2 = Ret v
           /\ cache (exec o w (fetchCompanyInfo companyName retries)).1
                !! company_key companyName
              = Some (v, (clock (exec o w (fetchCompanyInfo companyName retries)).1
                          + stdTTL * 1000)%N)).
Proof.
  destruct (ToString companyName) as [name|e] eqn:Hname.
  - by eapply fetch_frame.
  - destruct (fetch_unprintable o companyName retries w e Hname) as [-> _]. cbn. auto.
Qed.

(** X6: a retry looks into the cache again.  In the event loop, a fetch
    for a name that has a string and that found nothing usable issues the
    request and waits; when the request then fails while retries are left,
    and the cache has meanwhile received a truthy value for the company
    (from a fetch running beside it), the retry returns that value within
    the turn and issues no second request. *)
Theorem fetchCompanyInfo_retry_reads_cache (companyName : JsValue) (retries : Z)
    (w : World) :
  stringable companyName = true ->
  truthy (NodeCache_get (company_key companyName) w) = false ->
  (0 < retries)%Z ->
  exists k,
    advance w (fetchCompanyInfo companyName retries)
    = (issue (company_call companyName) w, Await (company_call companyName) k)
    /\ forall w' e v expiration,
         cache w' !! company_key companyName = Some (v, expiration) ->
         (clock w' <= expiration)%N ->
         truthy v = true ->
         exists w'',
           advance w' (k (Rejected e)) = (w'', Ret v)
           /\ issued w'' = issued w'
           /\ cache w'' = cache w'.
Proof.
  intros Hs Hmiss Hpos. destruct (stringable_inv _ Hs) as [name Hname].
  unfold company_key, company_call in *.
  rewrite (string_of_eq companyName name Hname) in *.
  rewrite fetchCompanyInfo_equation_1, Hname.
  cbn [advance bind try_catch cache_get do_sync await template].
  rewrite Hmiss.
  cbn [advance bind try_catch cache_get do_sync await template].
  eexists. split; [reflexivity|].
  intros w' e v expiration Hk Ht Hv.
  cbn [settle bind try_catch]. rewrite decide_True by exact Hpos.
  cbn [advance bind console_warn do_sync template].
  match goal with |- context [advance ?w2 (fetchCompanyInfo _ _)] =>
    destruct (fetch_hit service_down companyName name Hname w2 (retries - 1) v expiration)
      as [_ ->] end.
  - unfold company_key. by rewrite (string_of_eq companyName name Hname).
  - exact Ht.
  - exact Hv.
  - eexists. split; [reflexivity|]. by split.
Qed.

Lemma fetchCompanyInfo_retry_reads_cache_witness :
  exists k,
    advance fresh (fetchCompanyInfo acme 3)
    = (issue (company_call acme) fresh, Await (company_call acme) k)
    /\ exists w'',
         advance acme_cached (k (Rejected (ExternalError JNull))) = (w'', Ret acme_info)
         /\ issued w'' = issued acme_cached
         /\ cache w'' = cache acme_cached.
Proof.
  destruct (fetchCompanyInfo_retry_reads_cache acme 3 fresh eq_refl eq_refl eq_refl)
    as (k & Hadv & Hretry).
  exists k. split; [exact Hadv|].
  apply (Hretry acme_cached (ExternalError JNull) acme_info 3600000%N);
    [vm_compute; reflexivity|vm_compute; discriminate|reflexivity].
Defined.

(** ** A company name without a string *)

Lemma emailPromise_unprintable env w recipient companyName e :
  get_prop recipient "companyName" = inl companyName ->
  ToString companyName = inr e ->
  advance w (emailPromise env recipient) = (w, Yield (Throw e)).
Proof.
  intros Hname He. unfold emailPromise. rewrite Hname. cbn [lift bind].
  unfold await_async. rewrite fetchCompanyInfo_equation_1, He.
  cbn [template try_catch]. by destruct (decide (0 < 3)%Z).
Qed.

Lemma spawn_lookup (f : JsValue -> Prog) rs : forall w i r,
  rs !! i = Some r ->
  exists w', (spawn w (map f rs)).2 !! i = Some (advance w' (f r)).2.
Proof.
  induction rs as [|r0 rs IH]; intros w i r Hr; [by destruct i|].
  cbn [map spawn].
  destruct (advance w (f r0)) as [w1 t0] eqn:Hadv.
  specialize (IH w1).
  destruct (spawn w1 (map f rs)) as [w2 ts]. cbn in IH |- *.
  destruct i as [|i]; cbn in Hr |- *.
  - injection Hr as <-. exists w. by rewrite Hadv.
  - by apply IH.
Qed.

Lemma continue_tasks pl i p :
  tasks (continue pl i p) = <[i := (advance (world pl) p).2]> (tasks pl).
Proof.
  unfold continue. destruct (advance (world pl) p) as [w' t]. by rewrite rejoin_tasks.
Qed.

(** A task that has thrown stays as it is, and a task that is about to
    throw does so when it is resumed, not before. *)
Lemma step_thrown_stays ev pl i e :
  tasks pl !! i = Some (Throw e) -> tasks (step ev pl) !! i = Some (Throw e).
Proof.
  intros Hi. destruct ev as [dt|j|j o]; cbn [step tasks]; [done| |].
  - destruct (tasks pl !! j) as [t|] eqn:Hj; [|done].
    destruct t; try done. rewrite continue_tasks.
    destruct (decide (j = i)) as [->|Hne]; [congruence|].
    by rewrite list_lookup_insert_ne.
  - destruct (tasks pl !! j) as [t|] eqn:Hj; [|done].
    destruct t; try done. rewrite continue_tasks.
    destruct (decide (j = i)) as [->|Hne]; [congruence|].
    by rewrite list_lookup_insert_ne.
Qed.

Lemma step_pending_throw ev pl i e :
  tasks pl !! i = Some (Yield (Throw e)) ->
  ev = Resume i /\ tasks (step ev pl) !! i = Some (Throw e)
  \/ ev <> Resume i /\ tasks (step ev pl) !! i = Some (Yield (Throw e)).
Proof.
  intros Hi. destruct ev as [dt|j|j o]; cbn [step tasks].
  - by right.
  - destruct (decide (j = i)) as [->|Hne].
    + left. split; [done|]. rewrite Hi, continue_tasks. cbn [advance].
      rewrite list_lookup_insert_eq; [done|]. by eapply lookup_lt_Some.
    + right. split; [congruence|].
      destruct (tasks pl !! j) as [t|] eqn:Hj; [|done].
      destruct t; try done. rewrite continue_tasks.
      by rewrite list_lookup_insert_ne.
  - right. split; [done|].
    destruct (tasks pl !! j) as [t|] eqn:Hj; [|done].
    destruct t; try done. rewrite continue_tasks.
    destruct (decide (j = i)) as [->|Hne]; [congruence|].
    by rewrite list_lookup_insert_ne.
Qed.

Lemma run_thrown_stays evs i e : forall pl,
  tasks pl !! i = Some (Throw e) -> tasks (run evs pl) !! i = Some (Throw e).
Proof.
  induction evs as [|ev evs IH]; intros pl Hi; cbn [run]; [done|].
  by apply IH, step_thrown_stays.
Qed.

Lemma run_pending_throw evs i e : forall pl,
  tasks pl !! i = Some (Yield (Throw e)) ->
  Resume i ∈ evs ->
  tasks (run evs pl) !! i = Some (Throw e).
Proof.
  induction evs as [|ev evs IH]; intros pl Hi Hin; cbn [run].
  { by apply elem_of_nil in Hin. }
  destruct (step_pending_throw ev pl i e Hi) as [[-> Hstep]|[Hne Hstep]].
  - by apply run_thrown_stays.
  - apply IH; [exact Hstep|]. apply elem_of_cons in Hin. by destruct Hin as [<-|].
Qed.

(** X7: a recipient whose [companyName] has no string (an object with a
    key [toString] of its own, which JSON cannot make callable) fails the
    whole request.  The template literal of [fetchCompanyInfo] throws in
    the [try] block and again in the [catch] block, so the fetch is
    rejected without a request; once the pipeline of that recipient is
    resumed, under every schedule and whatever the other pipelines do, the
    answer is the 500 failure and nothing else. *)
Theorem generate_unprintable_company (env : Env) (w : World) (req : Request)
    (rs : list JsValue) (i : nat) (r companyName : JsValue) (evs : list Event) :
  get_prop (body req) "recipients" = inl (JArr rs) ->
  rs !! i = Some r ->
  get_prop r "companyName" = inl companyName ->
  stringable companyName = false ->
  Resume i ∈ evs ->
  responses (world (run evs (boot w (generateEmailController env req))))
  = responses w ++ [generate_failed]
  /\ exists e,
       ToString companyName = inr e
       /\ tasks (boot w (generateEmailController env req)) !! i = Some (Yield (Throw e))
       /\ tasks (run evs (boot w (generateEmailController env req))) !! i
          = Some (Throw e).
Proof.
  intros Hrs Hr Hname Hs Hin.
  assert (rs <> []) as Hne by (intros ->; by destruct i).
  unfold stringable in Hs. destruct (ToString companyName) as [|e] eqn:He; [done|].
  assert (Hboot : tasks (boot w (generateEmailController env req)) !! i
                  = Some (Yield (Throw e))).
  { assert (Hadv : advance w (generateEmailController env req)
                   = (w, All (map (emailPromise env) rs) generate_join)).
    { unfold generateEmailController. rewrite Hrs. by destruct rs. }
    unfold boot. rewrite Hadv.
    destruct (spawn_lookup (emailPromise env) rs w i r Hr) as [w' Hi].
    rewrite (emailPromise_unprintable env w' r companyName e Hname He) in Hi.
    destruct (spawn w (map (emailPromise env) rs)) as [w2 ts].
    by rewrite rejoin_tasks. }
  pose proof (run_pending_throw evs i e _ Hboot Hin) as Hrun.
  split; [|by exists e].
  destruct (run_inv w rs evs _ (boot_generate env w req rs Hrs Hne))
    as [_ [(_ & Hjoin & _)|[(_ & vs & Hvs & _)|(_ & _ & Hresp)]]].
  - destruct (thrown_first _ (ex_intro _ i (ex_intro _ e Hrun))) as [e' He'].
    unfold joined in Hjoin. by rewrite He' in Hjoin.
  - rewrite Hvs, list_lookup_fmap in Hrun. by destruct (vs !! i).
  - exact Hresp.
Qed.

Lemma generate_unprintable_company_witness :
  let r := JObj [("email", JStr "a@x.com");
                 ("companyName", JObj [("toString", JNum 1)]);
                 ("description", JStr "d1")] in
  responses (world (run [Resume 1] (boot fresh
    (generateEmailController sample_env (generate_request (JArr [recipient_a; r]))))))
  = responses fresh ++ [generate_failed].
Proof.
  intros r.
  apply (generate_unprintable_company sample_env fresh
           (generate_request (JArr [recipient_a; r])) [recipient_a; r] 1 r
           (JObj [("toString", JNum 1)]) [Resume 1]).
  - reflexivity.
  - reflexivity.
  - reflexivity.
  - reflexivity.
  - constructor.
Defined.

(** ** generateEmailContent *)

Lemma prompt_for_inv recipient companyInfo prompt :
  prompt_for recipient companyInfo = inl prompt ->
  exists email description companyName e d c,
    get_prop recipient "email" = inl email /\ ToString email = inl e
    /\ get_prop recipient "description" = inl description /\ ToString description = inl d
    /\ get_prop recipient "companyName" = inl companyName /\ ToString companyName = inl c
    /\ prompt = prompt_text e d c
                  (if truthy companyInfo
                   then default "undefined" (json_stringify companyInfo)
                   else "No company information provided.").
Proof.
  unfold prompt_for, and_then. intros H.
  destruct (get_prop recipient "email") as [email|]; [|done].
  destruct (ToString email) as [e|] eqn:He; [|done].
  destruct (get_prop recipient "description") as [description|]; [|done].
  destruct (ToString description) as [d|] eqn:Hd; [|done].
  destruct (get_prop recipient "companyName") as [companyName|]; [|done].
  destruct (ToString companyName) as [c|] eqn:Hc; [|done].
  injection H as <-.
  exists email, description, companyName, e, d, c. by repeat split.
Qed.

Lemma prompt_for_strings recipient companyInfo email description companyName :
  get_prop recipient "email" = inl email ->
  get_prop recipient "description" = inl description ->
  get_prop recipient "companyName" = inl companyName ->
  stringable email = true ->
  stringable description = true ->
  stringable companyName = true ->
  prompt_for recipient companyInfo
  = inl (prompt_text (string_of email) (string_of description) (string_of companyName)
           (if truthy companyInfo
            then default "undefined" (json_stringify companyInfo)
            else "No company information provided.")).
Proof.
  intros He Hd Hc Hes Hds Hcs.
  destruct (stringable_inv _ Hes) as [e He'].
  destruct (stringable_inv _ Hds) as [d Hd'].
  destruct (stringable_inv _ Hcs) as [c Hc'].
  unfold prompt_for, and_then, string_of. by rewrite He, He', Hd, Hd', Hc, Hc'.
Qed.

(** The request that [generateEmailContent] sends for a prompt. *)
Lemma generateEmailContent_unfold env o w recipient companyInfo prompt email :
  prompt_for recipient companyInfo = inl prompt ->
  get_prop recipient "email" = inl email ->
  let call := ChatCompletionsCreate (openai env) (completion_params prompt) in
  let reply := o (length (issued w)) call in
  let w1 := elapse (delay reply) (issue call w) in
  let failed error :=
    (write_console
       {| level := LevelError;
          message := "Error generating email for " +:+ string_of email +:+ ":";
          attached := Some error |} w1,
     Throw (Error "Failed to generate email")) in
  exec o w (generateEmailContent env recipient companyInfo) =
    match outcome reply with
    | Rejected error => failed error
    | Resolved completion =>
        match (let? content := completion_content completion in call_trim content) with
        | inl content => (w1, Ret content)
        | inr error => failed error
        end
    end.
Proof.
  intros Hprompt Hemail. cbn zeta.
  destruct (prompt_for_inv _ _ _ Hprompt)
    as (email' & description & companyName & e & d & c & He & Hes & _).
  rewrite Hemail in He. injection He as <-.
  unfold generateEmailContent. rewrite Hprompt, Hemail.
  rewrite (string_of_eq email e Hes). run_exec.
  destruct (outcome _) as [completion|error]; run_exec; [|by rewrite Hes].
  destruct (completion_content completion) as [content|]; run_exec; [|by rewrite Hes].
  destruct (call_trim content); run_exec; [done|by rewrite Hes].
Qed.

(** Without a prompt nothing is asked. *)
Lemma generateEmailContent_no_prompt env o w recipient companyInfo e :
  prompt_for recipient companyInfo = inr e ->
  issued (exec o w (generateEmailContent env recipient companyInfo)).1 = issued w
  /\ cache (exec o w (generateEmailContent env recipient companyInfo)).1 = cache w
  /\ exists e', (exec o w (generateEmailContent env recipient companyInfo)).2 = Throw e'.
Proof.
  intros Hprompt. unfold generateEmailContent. rewrite Hprompt. run_exec.
  destruct (get_prop recipient "email") as [email|]; run_exec; [|eauto].
  destruct (ToString email); run_exec; eauto.
Qed.

(** X8: whatever the completion API does, [generateEmailContent] issues
    at most one call.  When the prompt can be built, it issues exactly the
    completion request for that prompt and nothing else, leaves the cache
    alone, and either returns a string or throws the one error
    [Error("Failed to generate email")]: the cause is logged under the
    recipient's [email], not passed on.  When the prompt cannot be built
    (the recipient is [null] or [undefined], or one of its three fields has
    no string) it issues no call, leaves the cache alone, and throws. *)
Theorem generateEmailContent_one_call (env : Env) (o : Oracle) (w : World)
    (recipient companyInfo : JsValue) :
  match prompt_for recipient companyInfo with
  | inl prompt =>
      issued (exec o w (generateEmailContent env recipient companyInfo)).1
      = issued w ++ [ChatCompletionsCreate (openai env) (completion_params prompt)]
      /\ cache (exec o w (generateEmailContent env recipient companyInfo)).1 = cache w
      /\ ((exists s, (exec o w (generateEmailContent env recipient companyInfo)).2
                    = Ret (JStr s))
          \/ (exec o w (generateEmailContent env recipient companyInfo)).2
             = Throw (Error "Failed to generate email")
             /\ exists cause email,
                  get_prop recipient "email" = inl email
                  /\ last (console
                             (exec o w (generateEmailContent env recipient companyInfo)).1)
                     = Some {| level := LevelError;
                               message := "Error generating email for "
                                          +:+ string_of email +:+ ":";
                               attached := Some cause |})
  | inr _ =>
      issued (exec o w (generateEmailContent env recipient companyInfo)).1 = issued w
      /\ cache (exec o w (generateEmailContent env recipient companyInfo)).1 = cache w
      /\ exists e, (exec o w (generateEmailContent env recipient companyInfo)).2 = Throw e
  end.
Proof.
  destruct (prompt_for recipient companyInfo) as [prompt|e] eqn:Hprompt;
    [|by eapply generateEmailContent_no_prompt].
  destruct (prompt_for_inv _ _ _ Hprompt) as (email & _ & _ & _ & _ & _ & Hemail & _).
  rewrite (generateEmailContent_unfold env o w recipient companyInfo prompt email
             Hprompt Hemail).
  cbn zeta.
  destruct (outcome _) as [completion|error].
  - destruct (let? content := completion_content completion in _) as [content|error] eqn:Hc.
    + cbn. split; [reflexivity|]. split; [reflexivity|]. left.
      unfold and_then in Hc.
      destruct (completion_content completion) as [c|]; [|done].
      destruct c; try done. injection Hc as <-. eauto.
    + cbn. split; [reflexivity|]. split; [reflexivity|]. right.
      split; [reflexivity|]. exists error, email. by rewrite last_snoc.
  - cbn. split; [reflexivity|]. split; [reflexivity|]. right.
    split; [reflexivity|]. exists error, email. by rewrite last_snoc.
Qed.

(** ** One recipient, from fetch to content *)

Lemma fetch_all_requests_fail (o : Oracle) (companyName : JsValue) (name : string)
    (N : nat) : forall w,
  ToString companyName = inl name ->
  NodeCache_get (company_key companyName) w = JUndefined ->
  (forall n, exists e, outcome (o n (company_call companyName)) = Rejected e) ->
  exists w',
    exec o w (fetchCompanyInfo companyName (Z.of_nat N)) = (w', Ret JNull)
    /\ issued w' = issued w ++ replicate (S N) (company_call companyName).
Proof.
  induction N as [|N IH]; intros w Hname Hmiss Hfail.
  - rewrite (fetch_miss o companyName name Hname) by (rewrite Hmiss; reflexivity). cbn zeta.
    destruct (Hfail (length (issued w))) as [e ->].
    unfold retry. rewrite decide_False by lia. eexists. split; reflexivity.
  - rewrite (fetch_miss o companyName name Hname) by (rewrite Hmiss; reflexivity). cbn zeta.
    destruct (Hfail (length (issued w))) as [e ->].
    unfold retry. rewrite decide_True by lia.
    replace (Z.of_nat (S N) - 1)%Z with (Z.of_nat N) by lia.
    match goal with |- context [exec o ?w1 _] =>
      destruct (IH w1) as (w' & Hrun & Hi) end.
    + exact Hname.
    + eapply NodeCache_get_miss_later; [| |exact Hmiss]; cbn; [reflexivity|lia].
    + exact Hfail.
    + exists w'. split; [exact Hrun|]. rewrite Hi. cbn. by rewrite <- app_assoc.
Qed.

(** X9: a company whose information cannot be fetched does not stop its
    recipient.  For a recipient whose [email], [description] and
    [companyName] have strings, when the cache has nothing for the company
    and every request to the company API fails, the pipeline of the
    recipient makes its four attempts, then asks for the completion with
    the sentence "No company information provided." in the place of the
    company data, and returns the recipient's [email] with the trimmed text
    of the completion. *)
Theorem emailPromise_without_company_info (env : Env) (o : Oracle) (w : World)
    (recipient companyName email description completion : JsValue) (s : string) :
  get_prop recipient "companyName" = inl companyName ->
  get_prop recipient "email" = inl email ->
  get_prop recipient "description" = inl description ->
  stringable companyName = true ->
  stringable email = true ->
  stringable description = true ->
  NodeCache_get (company_key companyName) w = JUndefined ->
  (forall n, exists e, outcome (o n (company_call companyName)) = Rejected e) ->
  (forall n client params,
     outcome (o n (ChatCompletionsCreate client params)) = Resolved completion) ->
  completion_content completion = inl (JStr s) ->
  exists w',
    exec o w (emailPromise env recipient)
    = (w', Ret (JObj [("email", email); ("content", JStr (trim s))]))
    /\ issued w'
       = issued w ++ replicate 4 (company_call companyName)
         ++ [ChatCompletionsCreate (openai env)
               (completion_params
                  (prompt_text (string_of email) (string_of description)
                     (string_of companyName) "No company information provided."))].
Proof.
  intros Hname Hemail Hdescription Hcs Hes Hds Hmiss Hfail Hok Hcontent.
  destruct (stringable_inv _ Hcs) as [name Hstr].
  destruct (fetch_all_requests_fail o companyName name 3 w Hstr Hmiss Hfail)
    as (w1 & Hfetch & Hi1).
  change (Z.of_nat 3) with 3%Z in Hfetch.
  pose proof (prompt_for_strings recipient JNull email description companyName
                Hemail Hdescription Hname Hes Hds Hcs) as Hprompt.
  cbn [truthy] in Hprompt.
  pose proof (generateEmailContent_unfold env o w1 recipient JNull _ email
                Hprompt Hemail) as Hgen.
  cbn zeta in Hgen. rewrite Hok, Hcontent in Hgen. cbn [and_then call_trim] in Hgen.
  eexists. split.
  - unfold emailPromise. rewrite Hname. cbn [lift bind].
    rewrite (exec_bind_ret o _ _ w w1 JNull (exec_await_async_ret o _ w w1 JNull Hfetch)).
    rewrite (exec_bind_ret o _ _ w1 _ _ (exec_await_async_ret o _ w1 _ _ Hgen)).
    rewrite Hemail. reflexivity.
  - cbn. rewrite Hi1. by rewrite <- app_assoc.
Qed.

Lemma emailPromise_without_company_info_witness :
  let o : Oracle := fun n call =>
    match call with
    | AxiosGet _ _ => service_down n call
    | _ => {| delay := 7; outcome := Resolved completion_a |}
    end in
  exists w',
    exec o fresh (emailPromise sample_env recipient_a)
    = (w', Ret (JObj [("email", JStr "a@x.com");
                      ("content",
                       JStr (trim ("Subject A" +:+ String LF "Body line 1"
                                   +:+ String LF "Body line 2")))]))
    /\ issued w'
       = issued fresh ++ replicate 4 (company_call (JStr "Acme"))
         ++ [ChatCompletionsCreate (openai sample_env)
               (completion_params
                  (prompt_text (string_of (JStr "a@x.com")) (string_of (JStr "d1"))
                     (string_of (JStr "Acme")) "No company information provided."))].
Proof.
  intros o.
  apply (emailPromise_without_company_info sample_env o fresh recipient_a (JStr "Acme")
           (JStr "a@x.com") (JStr "d1") completion_a);
    try reflexivity.
  intros n. eexists. reflexivity.
Defined.

(** ** generateEmailController, further *)

Lemma run_app evs evs' : forall pl, run (evs ++ evs') pl = run evs' (run evs pl).
Proof. induction evs as [|ev evs IH]; intros pl; cbn; [done|apply IH]. Qed.

Lemma run_idle evs w0 m :
  tasks (run evs {| world := w0; main := m; tasks := [] |}) = []
  /\ responses (world (run evs {| world := w0; main := m; tasks := [] |})) = responses w0
  /\ issued (world (run evs {| world := w0; main := m; tasks := [] |})) = issued w0.
Proof.
  destruct (run_without_tasks evs {| world := w0; main := m; tasks := [] |} eq_refl)
    as (Hts & _ & Hr & Hi & _).
  auto.
Qed.

Lemma is_zero_true v : is_zero v = true -> v = JNum 0.
Proof. destruct v as [| | |n| | |]; try done. by destruct n. Qed.

Lemma boot_invalid env w req recipients :
  get_prop (body req) "recipients" = inl recipients ->
  truthy recipients = false \/ get_prop recipients "length" = inl (JNum 0) ->
  boot w (generateEmailController env req)
  = {| world := send_response invalid_request w; main := Ret JUndefined; tasks := [] |}.
Proof.
  intros Hrs Hcases. unfold boot, generateEmailController. rewrite Hrs. cbn [lift bind].
  destruct (truthy recipients) eqn:Ht; [|reflexivity].
  destruct Hcases as [Hf|Hlen]; [done|]. cbn [negb]. by rewrite Hlen.
Qed.

Lemma boot_not_an_array env w req recipients :
  get_prop (body req) "recipients" = inl recipients ->
  truthy recipients = true ->
  isArray recipients = false ->
  get_prop recipients "length" <> inl (JNum 0) ->
  boot w (generateEmailController env req)
  = {| world :=
         send_response generate_failed
           (write_console
              {| level := LevelError; message := "Error generating emails:";
                 attached := Some (TypeError "recipients.map is not a function") |} w);
       main := Ret JUndefined;
       tasks := [] |}.
Proof.
  intros Hrs Ht Harr Hlen. unfold boot, generateEmailController. rewrite Hrs.
  cbn [lift bind]. rewrite Ht. cbn [negb].
  destruct (get_prop recipients "length") as [len|] eqn:Hl.
  - cbn [lift bind]. destruct (is_zero len) eqn:Hz.
    { apply is_zero_true in Hz. by subst len. }
    destruct recipients; try done.
  - destruct recipients; done.
Qed.

(** X10: the 400 answer of [generateEmailController] is given exactly
    when [recipients] is falsy ([undefined], [null], [false], [0], [""]) or
    has a [length] that is the number 0 (the empty array, or an object such
    as [{length: 0}]); in every other case the answer, if any has been
    sent, is another one. *)
Theorem generate_invalid_exactly (env : Env) (w : World) (req : Request)
    (recipients : JsValue) (evs : list Event) :
  get_prop (body req) "recipients" = inl recipients ->
  responses (world (run evs (boot w (generateEmailController env req))))
  = responses w ++ [invalid_request]
  <-> truthy recipients = false \/ get_prop recipients "length" = inl (JNum 0).
Proof.
  intros Hrs. split.
  - intros Hresp.
    destruct (truthy recipients) eqn:Ht; [|by left].
    assert (Hdec : get_prop recipients "length" = inl (JNum 0)
                   \/ get_prop recipients "length" <> inl (JNum 0)).
    { destruct (get_prop recipients "length") as [len|]; [|by right].
      destruct (is_zero len) eqn:Hz.
      - left. by rewrite (is_zero_true len Hz).
      - right. intros [= ->]. done. }
    destruct Hdec as [|Hlen]; [by right|exfalso].
    destruct (isArray recipients) eqn:Harr.
    + destruct recipients as [| | | | |rs|]; try done.
      assert (rs <> []) as Hne by (intros ->; by apply Hlen).
      destruct (run_inv w rs evs _ (boot_generate env w req rs Hrs Hne))
        as [_ [(_ & _ & Hr)|[(_ & vs & _ & Hr)|(_ & _ & Hr)]]];
        rewrite Hr in Hresp.
      * apply (f_equal length) in Hresp. rewrite length_app in Hresp. cbn in Hresp. lia.
      * by apply app_inv_head in Hresp.
      * by apply app_inv_head in Hresp.
    + rewrite (boot_not_an_array env w req recipients Hrs Ht Harr Hlen) in Hresp.
      rewrite (proj1 (proj2 (run_idle evs _ _))) in Hresp.
      cbn in Hresp. by apply app_inv_head in Hresp.
  - intros Hcases. rewrite (boot_invalid env w req recipients Hrs Hcases).
    by rewrite (proj1 (proj2 (run_idle evs _ _))).
Qed.

Lemma generate_invalid_exactly_witness :
  responses (world (run [] (boot fresh
    (generateEmailController sample_env
       (generate_request (JObj [("length", JNum 0)]))))))
  = responses fresh ++ [invalid_request]
  /\ responses (world (run [] (boot fresh
       (generateEmailController sample_env (generate_request JNull)))))
     = responses fresh ++ [invalid_request].
Proof.
  split.
  - apply (generate_invalid_exactly sample_env fresh
             (generate_request (JObj [("length", JNum 0)])) (JObj [("length", JNum 0)]) []
             eq_refl).
    right. reflexivity.
  - apply (generate_invalid_exactly sample_env fresh (generate_request JNull) JNull []
             eq_refl).
    left. reflexivity.
Defined.

(** X11: when [recipients] is truthy, is not an array and has no [length]
    that is 0 (a number, [true], a non-empty string, an object), the call
    of [recipients.map] throws inside the [try] block: the TypeError is
    logged, the answer is the 500 failure, no pipeline is started and no
    external call is issued. *)
Theorem generate_not_array_fails (env : Env) (w : World) (req : Request)
    (recipients : JsValue) (evs : list Event) :
  get_prop (body req) "recipients" = inl recipients ->
  truthy recipients = true ->
  isArray recipients = false ->
  get_prop recipients "length" <> inl (JNum 0) ->
  responses (world (run evs (boot w (generateEmailController env req))))
  = responses w ++ [generate_failed]
  /\ tasks (run evs (boot w (generateEmailController env req))) = []
  /\ issued (world (run evs (boot w (generateEmailController env req)))) = issued w
  /\ console (world (boot w (generateEmailController env req)))
     = console w ++ [{| level := LevelError; message := "Error generating emails:";
                        attached := Some (TypeError "recipients.map is not a function") |}].
Proof.
  intros Hrs Ht Harr Hlen.
  rewrite (boot_not_an_array env w req recipients Hrs Ht Harr Hlen).
  destruct (run_idle evs
              (send_response generate_failed
                 (write_console
                    {| level := LevelError; message := "Error generating emails:";
                       attached := Some (TypeError "recipients.map is not a function") |}
                    w))
              (Ret JUndefined)) as (Hts & Hr & Hi).
  by rewrite Hts, Hr, Hi.
Qed.

Lemma generate_not_array_fails_witness :
  responses (world (run all_answered (boot fresh
    (generateEmailController sample_env (generate_request (JStr "a@x.com"))))))
  = [generate_failed]
  /\ issued (world (run all_answered (boot fresh
       (generateEmailController sample_env (generate_request (JStr "a@x.com"))))))
     = [].
Proof.
  destruct (generate_not_array_fails sample_env fresh (generate_request (JStr "a@x.com"))
              (JStr "a@x.com") all_answered eq_refl eq_refl eq_refl)
    as (Hr & _ & Hi & _); [discriminate|].
  split; [exact Hr|exact Hi].
Defined.

(** X12: the destructuring of [req.body] stands before the [try] block
    of both controllers.  For a request whose body is [undefined] or
    [null] each controller throws a TypeError that nothing catches: no
    answer is ever sent and no external call is issued. *)
Theorem controllers_without_body (env : Env) (o : Oracle) (w : World) (req : Request)
    (evs : list Event) :
  body req = JUndefined \/ body req = JNull ->
  (exists msg, main (run evs (boot w (generateEmailController env req)))
               = Throw (TypeError msg))
  /\ responses (world (run evs (boot w (generateEmailController env req)))) = responses w
  /\ issued (world (run evs (boot w (generateEmailController env req)))) = issued w
  /\ exists msg, exec o w (emailSending env req) = (w, Throw (TypeError msg)).
Proof.
  intros Hbody.
  assert (Hboot : exists msg,
    boot w (generateEmailController env req)
    = {| world := w; main := Throw (TypeError msg); tasks := [] |}).
  { unfold boot, generateEmailController.
    destruct Hbody as [-> | ->]; eexists; reflexivity. }
  assert (Hsend : exists msg, exec o w (emailSending env req) = (w, Throw (TypeError msg))).
  { unfold emailSending. destruct Hbody as [-> | ->]; eexists; reflexivity. }
  destruct Hboot as (msg & ->).
  destruct (run_without_tasks evs {| world := w; main := Throw (TypeError msg); tasks := [] |}
              eq_refl) as (_ & Hm & Hr & Hi & _).
  rewrite Hm, Hr, Hi. eauto.
Qed.

Lemma controllers_without_body_witness :
  (exists msg, main (run all_answered (boot fresh
                 (generateEmailController sample_env {| body := JUndefined |})))
               = Throw (TypeError msg))
  /\ responses (world (run all_answered (boot fresh
       (generateEmailController sample_env {| body := JUndefined |})))) = []
  /\ issued (world (run all_answered (boot fresh
       (generateEmailController sample_env {| body := JUndefined |})))) = []
  /\ exists msg, exec service_down fresh (emailSending sample_env {| body := JUndefined |})
                 = (fresh, Throw (TypeError msg)).
Proof.
  apply (controllers_without_body sample_env service_down fresh {| body := JUndefined |}
           all_answered).
  left. reflexivity.
Defined.

(** X13: [generateEmailController] answers nothing before its
    [Promise.all] has settled: as long as no pipeline has thrown and some
    pipeline has not yet returned, no response has been sent, however many
    of the others are done. *)
Theorem generate_waits_for_all (env : Env) (w : World) (req : Request)
    (evs : list Event) (j : nat) (t : Prog) :
  (forall i e, tasks (run evs (boot w (generateEmailController env req))) !! i
               <> Some (Throw e)) ->
  tasks (run evs (boot w (generateEmailController env req))) !! j = Some t ->
  (forall v, t <> Ret v) ->
  responses (world (run evs (boot w (generateEmailController env req)))) = responses w.
Proof.
  intros Hnone Hj Hpending.
  destruct (get_prop (body req) "recipients") as [[| | | | |[|r rs]|]|] eqn:Hrs;
    try (rewrite (proj1 (run_without_tasks evs _
                           (boot_without_tasks env w req
                              ltac:(intros ? ?; rewrite Hrs; congruence)))) in Hj;
         by destruct j).
  destruct (run_inv w (r :: rs) evs _ (boot_generate env w req (r :: rs) Hrs ltac:(done)))
    as [_ [(_ & _ & Hr)|[(_ & vs & Hvs & _)|(_ & (i & e & Hi) & _)]]].
  - exact Hr.
  - rewrite Hvs, list_lookup_fmap in Hj.
    destruct (vs !! j) as [v|]; [|done]. injection Hj as <-. by destruct (Hpending v).
  - by destruct (Hnone i e).
Qed.

Lemma generate_waits_for_all_witness :
  responses (world (run [Deliver 0 (Resolved (JObj [("data", acme_info)])); Resume 0]
    (boot fresh (generateEmailController sample_env
                   (generate_request (JArr [recipient_a; recipient_a]))))))
  = responses fresh.
Proof.
  eapply (generate_waits_for_all sample_env fresh
            (generate_request (JArr [recipient_a; recipient_a]))
            [Deliver 0 (Resolved (JObj [("data", acme_info)])); Resume 0] 1).
  - intros i e. vm_compute. destruct i as [|[|[|i]]]; discriminate.
  - vm_compute. reflexivity.
  - intros v. discriminate.
Defined.

Lemma answered_step w rs ev pl :
  pool_inv w rs pl ->
  main pl = Ret JUndefined ->
  main (step ev pl) = Ret JUndefined
  /\ responses (world (step ev pl)) = responses (world pl).
Proof.
  intros [Hts _] Hmain.
  assert (Hcont : forall i t0 p,
    tasks pl !! i = Some t0 ->
    (forall Q, task_inv Q t0 -> task_inv Q p) ->
    main (continue pl i p) = Ret JUndefined
    /\ responses (world (continue pl i p)) = responses (world pl)).
  { intros i t0 p Hi Hp. unfold continue.
    destruct (Forall2_lookup_r _ _ _ _ _ Hts Hi) as (r & _ & Ht0).
    destruct (advance_task (email_of r) p (world pl) (Hp _ Ht0)) as [_ Hresp].
    destruct (advance (world pl) p) as [w' t]. unfold rejoin. cbn [main].
    rewrite Hmain. cbn. by split. }
  destruct ev as [dt|i|i o]; cbn.
  - by split.
  - destruct (tasks pl !! i) as [t0|] eqn:Hi; [|by split].
    destruct t0; try by split. by eapply Hcont.
  - destruct (tasks pl !! i) as [t0|] eqn:Hi; [|by split].
    destruct t0; try by split. eapply Hcont; [exact Hi|]. intros Q HQ. apply HQ.
Qed.

Lemma answered_run w rs evs : forall pl,
  pool_inv w rs pl ->
  main pl = Ret JUndefined ->
  responses (world (run evs pl)) = responses (world pl).
Proof.
  induction evs as [|ev evs IH]; intros pl Hinv Hmain; cbn [run]; [done|].
  destruct (answered_step w rs ev pl Hinv Hmain) as [Hm Hr].
  rewrite IH; [exact Hr|by apply step_inv|exact Hm].
Qed.

Lemma boot_answers_once env w req :
  tasks (boot w (generateEmailController env req)) = [] ->
  exists sent,
    responses (world (boot w (generateEmailController env req))) = responses w ++ sent
    /\ (length sent <= 1)%nat.
Proof.
  intros Hts.
  destruct (get_prop (body req) "recipients") as [recipients|e] eqn:Hrs.
  2: { exists []. unfold generateEmailController, boot. rewrite Hrs. cbn.
       rewrite app_nil_r. split; [done|lia]. }
  assert (H400 : exists sent,
    responses (send_response invalid_request w) = responses w ++ sent
    /\ (length sent <= 1)%nat) by (exists [invalid_request]; cbn; split; [done|lia]).
  assert (H500 : forall line, exists sent,
    responses (send_response generate_failed (write_console line w)) = responses w ++ sent
    /\ (length sent <= 1)%nat) by (intros; exists [generate_failed]; cbn; split; [done|lia]).
  destruct recipients as [| |b|n|s|[|r rs]|fields].
  7: { destruct (boot_generate env w req (r :: rs) Hrs ltac:(done)) as [Hf _].
       rewrite Hts in Hf. inversion Hf. }
  all: clear Hts; unfold generateEmailController, boot; rewrite Hrs; cbn.
  - exact H400.
  - exact H400.
  - destruct b; [apply H500|exact H400].
  - destruct (n =? 0)%Z; [exact H400|apply H500].
  - destruct (String.eqb s ""); [exact H400|]. cbn.
    destruct (Z.of_nat (String.length s)); [exact H400|apply H500..].
  - exact H400.
  - destruct (is_zero (default JUndefined (assoc "length" fields))); [exact H400|apply H500].
Qed.

(** X14: [generateEmailController] answers a request at most once, and
    an answer that has been sent stays the answer: whatever the request
    and however the pipelines go on afterwards, no second response is
    sent. *)
Theorem generate_answers_once (env : Env) (w : World) (req : Request)
    (evs evs' : list Event) :
  exists sent,
    responses (world (run evs (boot w (generateEmailController env req))))
    = responses w ++ sent
    /\ (length sent <= 1)%nat
    /\ (sent <> [] ->
        responses (world (run (evs ++ evs') (boot w (generateEmailController env req))))
        = responses w ++ sent).
Proof.
  rewrite run_app.
  destruct (tasks (boot w (generateEmailController env req))) as [|t0 ts0] eqn:Hts.
  - destruct (boot_answers_once env w req Hts) as (sent & Hr & Hlen).
    destruct (run_without_tasks evs _ Hts) as (Hts1 & _ & Hr1 & _).
    destruct (run_without_tasks evs' _ Hts1) as (_ & _ & Hr2 & _).
    exists sent. rewrite Hr2, Hr1. auto.
  - destruct (get_prop (body req) "recipients") as [[| | | | |[|r rs]|]|] eqn:Hrs;
      try (rewrite (boot_without_tasks env w req
                      ltac:(intros ? ?; rewrite Hrs; congruence)) in Hts; done).
    pose proof (run_inv w (r :: rs) evs _
                  (boot_generate env w req (r :: rs) Hrs ltac:(done))) as Hinv.
    destruct Hinv as [Hf Hcases].
    destruct Hcases as [(Hm & Hj & Hr)|[(Hm & vs & Hvs & Hr)|(Hm & Hth & Hr)]].
    + exists []. rewrite app_nil_r. split; [exact Hr|]. split; [cbn; lia|done].
    + exists [generated vs]. split; [exact Hr|]. split; [cbn; lia|]. intros _.
      rewrite (answered_run w (r :: rs) evs' _); [exact Hr| |exact Hm].
      split; [exact Hf|]. right. left. eauto.
    + exists [generate_failed]. split; [exact Hr|]. split; [cbn; lia|]. intros _.
      rewrite (answered_run w (r :: rs) evs' _); [exact Hr| |exact Hm].
      split; [exact Hf|]. right. right. eauto.
Qed.

Lemma NodeCache_get_same key w w' :
  cache w' = cache w -> clock w' = clock w ->
  NodeCache_get key w' = NodeCache_get key w.
Proof. unfold NodeCache_get. by intros -> ->. Qed.

(** The pipeline of a recipient whose company is not in the cache goes
    as far as the request for the company, within the turn. *)
Lemma emailPromise_starts env w recipient companyName :
  get_prop recipient "companyName" = inl companyName ->
  stringable companyName = true ->
  truthy (NodeCache_get (company_key companyName) w) = false ->
  exists k,
    advance w (emailPromise env recipient)
    = (issue (company_call companyName) w, Await (company_call companyName) k).
Proof.
  intros Hname Hs Hmiss. destruct (stringable_inv _ Hs) as [name Hstr].
  unfold company_key, company_call in *.
  rewrite (string_of_eq companyName name Hstr) in *.
  unfold emailPromise. rewrite Hname. cbn [lift bind].
  unfold await_async. rewrite fetchCompanyInfo_equation_1, Hstr.
  cbn [advance bind try_catch cache_get do_sync await template].
  rewrite Hmiss.
  cbn [advance bind try_catch cache_get do_sync await template].
  eexists. reflexivity.
Qed.

Lemma spawn_fan_out env w rs names :
  Forall2 (fun recipient companyName =>
             get_prop recipient "companyName" = inl companyName
             /\ stringable companyName = true
             /\ truthy (NodeCache_get (company_key companyName) w) = false) rs names ->
  forall w0,
    cache w0 = cache w -> clock w0 = clock w ->
    issued (spawn w0 (map (emailPromise env) rs)).1
    = issued w0 ++ map company_call names
    /\ responses (spawn w0 (map (emailPromise env) rs)).1 = responses w0
    /\ Forall (fun t => exists call k, t = Await call k)
         (spawn w0 (map (emailPromise env) rs)).2.
Proof.
  induction 1 as [|r name rs names (Hname & Hs & Hmiss) Hrest IH]; intros w0 Hc Ht;
    cbn [map spawn].
  - cbn. rewrite app_nil_r. by repeat split.
  - rewrite <- (NodeCache_get_same _ w w0 Hc Ht) in Hmiss.
    destruct (emailPromise_starts env w0 r name Hname Hs Hmiss) as [k ->].
    destruct (IH (issue (company_call name) w0)) as (Hi & Hr & Hts); [done..|].
    destruct (spawn (issue (company_call name) w0) (map (emailPromise env) rs))
      as [w2 ts].
    cbn in *. rewrite Hi, Hr, <- app_assoc. repeat split; [done..|].
    constructor; eauto.
Qed.

Lemma joined_awaiting t ts :
  Forall (fun t => exists call k, t = Await call k) (t :: ts) -> joined (t :: ts) = None.
Proof.
  intros Hts. unfold joined.
  assert (first_thrown (t :: ts) = None) as ->.
  { induction Hts as [|t' ts' (c & k & ->) _ IH]; [done|exact IH]. }
  by inversion Hts as [|t' ts' (c & k & ->) _].
Qed.

(** X15: the pipelines of a request are all started before any answer of
    the company API can arrive, so the cache spares none of them a
    request: when [generateEmailController] is called with recipients
    whose company names have strings and whose companies are not in the
    cache, it issues one request per recipient, in the order of the
    recipients, also for recipients of one and the same company, and has
    not answered yet. *)
Theorem generate_fan_out (env : Env) (w : World) (req : Request)
    (rs names : list JsValue) :
  get_prop (body req) "recipients" = inl (JArr rs) ->
  rs <> [] ->
  Forall2 (fun recipient companyName =>
             get_prop recipient "companyName" = inl companyName
             /\ stringable companyName = true
             /\ truthy (NodeCache_get (company_key companyName) w) = false) rs names ->
  issued (world (boot w (generateEmailController env req)))
  = issued w ++ map company_call names
  /\ responses (world (boot w (generateEmailController env req))) = responses w.
Proof.
  intros Hrs Hne Hnames.
  assert (Hadv : advance w (generateEmailController env req)
                 = (w, All (map (emailPromise env) rs) generate_join)).
  { unfold generateEmailController. rewrite Hrs. by destruct rs. }
  unfold boot. rewrite Hadv.
  destruct (spawn_fan_out env w rs names Hnames w eq_refl eq_refl) as (Hi & Hr & Hts).
  destruct (spawn w (map (emailPromise env) rs)) as [w2 ts] eqn:Hspawn. cbn in Hi, Hr, Hts.
  assert (ts <> []) as Hts_ne.
  { destruct rs as [|r rs']; [done|]. cbn in Hspawn.
    destruct (advance w (emailPromise env r)), (spawn w0 (map (emailPromise env) rs')).
    by injection Hspawn as _ <-. }
  destruct ts as [|t ts]; [done|].
  unfold rejoin. cbn [main tasks]. rewrite (joined_awaiting t ts Hts). by split.
Qed.

Lemma generate_fan_out_witness :
  issued (world (boot fresh
    (generateEmailController sample_env
       (generate_request (JArr [recipient_a; recipient_a])))))
  = issued fresh ++ map company_call [JStr "Acme"; JStr "Acme"]
  /\ responses (world (boot fresh
       (generateEmailController sample_env
          (generate_request (JArr [recipient_a; recipient_a])))))
     = responses fresh.
Proof.
  apply (generate_fan_out sample_env fresh
           (generate_request (JArr [recipient_a; recipient_a]))
           [recipient_a; recipient_a] [JStr "Acme"; JStr "Acme"]).
  - reflexivity.
  - discriminate.
  - repeat constructor.
Defined.

(** ** emailSending, further *)

(** X16: when every entry of [emails] is an object with a string
    [content] and an [email] that has a string, and the transport accepts
    every mail with an answer whose [response] has a string, [emailSending]
    sends one mail per entry, in the order of the list, entries that repeat
    included, and answers 200 with "Emails sent successfully!". *)
Theorem send_all_succeed (env : Env) (o : Oracle) (w : World) (req : Request)
    (items : list JsValue) :
  get_prop (body req) "emails" = inl (JArr items) ->
  Forall (fun item => exists options email,
            mailOptions item = inl options
            /\ get_prop item "email" = inl email
            /\ stringable email = true) items ->
  (forall n call, exists info response,
     outcome (o n call) = Resolved info
     /\ get_prop info "response" = inl response
     /\ stringable response = true) ->
  exists calls,
    issued (exec o w (emailSending env req)).1 = issued w ++ calls
    /\ Forall2 (fun item call => mail_call env item = Some call) items calls
    /\ responses (exec o w (emailSending env req)).1 = responses w ++ [sent_ok].
Proof.
  intros Hemails Hitems Hok. rewrite (emailSending_array env o req items w Hemails).
  clear Hemails. revert w.
  induction Hitems as [|item rest (options & email & Hopt & Hemail & Hes) _ IH]; intros w.
  - exists []. rewrite send_loop_nil. cbn. rewrite app_nil_r. by repeat split.
  - rewrite send_loop_cons, Hopt. cbn zeta.
    destruct (Hok (length (issued w)) (SendMail (transporter env) options))
      as (info & response & -> & -> & Hrs).
    destruct (stringable_inv _ Hes) as [to Hto].
    destruct (stringable_inv _ Hrs) as [line Hline].
    rewrite Hemail. cbn [and_then]. rewrite Hto. cbn [and_then].
    rewrite Hline. cbn [and_then].
    match goal with |- context [exec o ?w2 (send_loop env rest)] =>
      destruct (IH w2) as (calls & Hi & Hf & Hr) end.
    exists (SendMail (transporter env) options :: calls).
    rewrite Hi, Hr. cbn. rewrite <- app_assoc.
    split; [done|]. split; [|done].
    constructor; [|exact Hf]. unfold mail_call. by rewrite Hopt.
Qed.

Lemma send_all_succeed_witness :
  exists calls,
    issued (exec (service_up JNull) fresh
              (emailSending sample_env (send_request (JArr [email_a; email_b; email_a])))).1
    = issued fresh ++ calls
    /\ Forall2 (fun item call => mail_call sample_env item = Some call)
         [email_a; email_b; email_a] calls
    /\ responses (exec (service_up JNull) fresh
                    (emailSending sample_env
                       (send_request (JArr [email_a; email_b; email_a])))).1
       = responses fresh ++ [sent_ok].
Proof.
  apply (send_all_succeed sample_env (service_up JNull) fresh
           (send_request (JArr [email_a; email_b; email_a])) [email_a; email_b; email_a]).
  - reflexivity.
  - repeat constructor; eexists _, _; repeat split; reflexivity.
  - intros n call. eexists _, _. repeat split; reflexivity.
Defined.

(** X17: an entry of [emails] that is [null], or whose [content] is
    missing or not a string, makes the loop throw before the mail of that
    entry is built: when the entry stands at position [i], at most the [i]
    mails of the entries before it are sent, and the answer is the 500
    failure. *)
Theorem send_stops_at_malformed (env : Env) (o : Oracle) (w : World) (req : Request)
    (items : list JsValue) (i : nat) (item : JsValue) (e : JsError) :
  get_prop (body req) "emails" = inl (JArr items) ->
  items !! i = Some item ->
  mailOptions item = inr e ->
  exists calls,
    issued (exec o w (emailSending env req)).1 = issued w ++ calls
    /\ (length calls <= i)%nat
    /\ Forall2 (fun item call => mail_call env item = Some call)
         (take (length calls) items) calls
    /\ responses (exec o w (emailSending env req)).1 = responses w ++ [send_failed].
Proof.
  intros Hemails Hitem Hbad. rewrite (emailSending_array env o req items w Hemails).
  destruct (send_loop_run env o items w) as (n & calls & r & Hi & Hf & Hr & _ & Hok & _).
  assert (Hn : (n <= i)%nat).
  { destruct (decide (n <= i)%nat) as [|Hgt]; [done|exfalso].
    assert (take n items !! i = Some item) as Htake
      by (apply lookup_take_Some; split; [done|lia]).
    destruct (Forall2_lookup_l _ _ _ _ _ Hf Htake) as (c & _ & Hc).
    unfold mail_call in Hc. by rewrite Hbad in Hc. }
  pose proof (Forall2_length _ _ _ Hf) as Hlen. rewrite length_take in Hlen.
  apply lookup_lt_Some in Hitem.
  exists calls. split; [exact Hi|]. split; [lia|]. split.
  - replace (length calls) with n by lia. exact Hf.
  - rewrite Hr. destruct Hok as [[_ ->]| ->]; [lia|done].
Qed.

Lemma send_stops_at_malformed_witness :
  exists calls,
    issued (exec (service_up JNull) fresh
              (emailSending sample_env
                 (send_request (JArr [email_a; JObj [("email", JStr "c@x.com")]; email_b])))).1
    = issued fresh ++ calls
    /\ (length calls <= 1)%nat
    /\ Forall2 (fun item call => mail_call sample_env item = Some call)
         (take (length calls) [email_a; JObj [("email", JStr "c@x.com")]; email_b]) calls
    /\ responses (exec (service_up JNull) fresh
                    (emailSending sample_env
                       (send_request
                          (JArr [email_a; JObj [("email", JStr "c@x.com")]; email_b])))).1
       = responses fresh ++ [send_failed].
Proof.
  apply (send_stops_at_malformed sample_env (service_up JNull) fresh
           (send_request (JArr [email_a; JObj [("email", JStr "c@x.com")]; email_b]))
           [email_a; JObj [("email", JStr "c@x.com")]; email_b] 1
           (JObj [("email", JStr "c@x.com")])
           (TypeError "Cannot read properties of undefined (reading 'split')"));
    reflexivity.
Defined.

(** ** From the generated content to the subject line *)

Lemma rev_app_app s : forall t acc,
  String.rev_app (s +:+ t) acc = String.rev_app t (String.rev_app s acc).
Proof.
  induction s as [|c s IH]; intros t acc; [reflexivity|].
  change (String c s +:+ t) with (String c (s +:+ t)). cbn. apply IH.
Qed.

Lemma rev_snoc s c : String.rev (s +:+ String c "") = String c (String.rev s).
Proof. unfold String.rev. by rewrite rev_app_app. Qed.

Lemma rev_app_acc s : forall acc, String.rev_app s acc = String.rev s +:+ acc.
Proof.
  unfold String.rev. induction s as [|c s IH]; intros acc; [reflexivity|].
  cbn. rewrite (IH (String c acc)), (IH (String c "")).
  generalize (String.rev_app s ""). intros x.
  induction x as [|d x IHx]; [reflexivity|].
  change (String d x +:+ String c acc) with (String d (x +:+ String c acc)).
  change ((String d x +:+ String c "") +:+ acc)
    with (String d ((x +:+ String c "") +:+ acc)).
  by rewrite IHx.
Qed.

(** What is stripped is a prefix, and what is left does not start with
    a white-space character of one byte. *)
Lemma strip_spec sp2 sp3 (n : nat) : forall s,
  (String.length s <= n)%nat ->
  (exists pre, s = pre +:+ strip sp2 sp3 s)
  /\ (forall c rest, strip sp2 sp3 s = String c rest -> isspace1 c = false).
Proof.
  induction n as [n IH] using lt_wf_ind. intros s Hn.
  destruct s as [|c1 r1]; [split; [by exists ""|done]|].
  cbn [strip]. cbn in Hn.
  assert (Hrec : forall (skipped r : string),
    String c1 r1 = skipped +:+ r ->
    (String.length r < n)%nat ->
    (exists pre, String c1 r1 = pre +:+ strip sp2 sp3 r)
    /\ (forall c rest, strip sp2 sp3 r = String c rest -> isspace1 c = false)).
  { intros skipped r Hs Hr.
    destruct (IH (String.length r) Hr r (Nat.le_refl _)) as [[pre Hpre] Hhead].
    split; [|exact Hhead]. exists (skipped +:+ pre).
    rewrite Hs. rewrite Hpre at 1. clear.
    induction skipped as [|d skipped IHs]; [reflexivity|].
    change (String d skipped +:+ pre +:+ strip sp2 sp3 r)
      with (String d (skipped +:+ pre +:+ strip sp2 sp3 r)).
    change ((String d skipped +:+ pre) +:+ strip sp2 sp3 r)
      with (String d ((skipped +:+ pre) +:+ strip sp2 sp3 r)).
    by rewrite IHs. }
  assert (Hstay : isspace1 c1 = false ->
    (exists pre, String c1 r1 = pre +:+ String c1 r1)
    /\ (forall c rest, String c1 r1 = String c rest -> isspace1 c = false)).
  { intros Hc1. split; [by exists ""|]. by intros c rest [= <- _]. }
  destruct (isspace1 c1) eqn:Hc1.
  { apply (Hrec (String c1 "") r1); [reflexivity|lia]. }
  destruct r1 as [|c2 r2]; [by apply Hstay|].
  destruct (sp2 c1 c2).
  { apply (Hrec (String c1 (String c2 "")) r2); [reflexivity|cbn in Hn; lia]. }
  destruct r2 as [|c3 r3]; [by apply Hstay|].
  destruct (sp3 c1 c2 c3); [|by apply Hstay].
  apply (Hrec (String c1 (String c2 (String c3 ""))) r3); [reflexivity|cbn in Hn; lia].
Qed.

Lemma suffix_ends_with c : forall pre y u,
  y +:+ String c "" = pre +:+ u ->
  u <> "" ->
  exists u', u = u' +:+ String c "".
Proof.
  induction pre as [|p pre IH]; intros y u Heq Hu.
  - exists y. by rewrite Heq.
  - change (String p pre +:+ u) with (String p (pre +:+ u)) in Heq.
    destruct y as [|q y].
    + change ("" +:+ String c "") with (String c "") in Heq.
      injection Heq as _ Heq. destruct pre; [|discriminate Heq].
      change ("" +:+ u) with u in Heq. by subst u.
    + change (String q y +:+ String c "") with (String q (y +:+ String c "")) in Heq.
      injection Heq as _ Heq. by eapply IH.
Qed.

(** A trimmed string is empty or starts with a character that is not
    white space. *)
Lemma trim_head s :
  trim s = "" \/ exists c rest, trim s = String c rest /\ isspace1 c = false.
Proof.
  unfold trim, trimStart.
  destruct (strip_spec isspace2 isspace3 _ s (Nat.le_refl _)) as [_ Hhead].
  destruct (strip isspace2 isspace3 s) as [|c t] eqn:Hs; [by left|].
  specialize (Hhead c t eq_refl). unfold trimEnd.
  set (sp2 := fun c1 c2 => isspace2 c2 c1).
  set (sp3 := fun c1 c2 c3 => isspace3 c3 c2 c1).
  assert (Hrev : String.rev (String c t) = String.rev t +:+ String c "").
  { unfold String.rev at 1. cbn. apply rev_app_acc. }
  destruct (strip_spec sp2 sp3 _ (String.rev (String c t)) (Nat.le_refl _))
    as [[pre Hpre] _].
  destruct (strip sp2 sp3 (String.rev (String c t))) as [|d u] eqn:Hu; [by left|].
  right. rewrite Hrev in Hpre.
  destruct (suffix_ends_with c pre (String.rev t) (String d u) Hpre ltac:(done))
    as [u' ->].
  rewrite rev_snoc. eauto.
Qed.

(** What a body returns when it runs alone is one of the results that the
    body can have. *)
Lemma exec_task_inv (Q : JsValue -> Prop) p :
  task_inv Q p -> forall o w v, (exec o w p).2 = Ret v -> Q v.
Proof.
  induction p as [v0|e|op k IH|q IH|call k IH|ps k IH]; intros Hp o w v; cbn [exec].
  - cbn. by intros [= <-].
  - done.
  - destruct Hp as [_ Hk]. destruct (do_sync op w) as [w' a]. by apply IH.
  - by apply IH.
  - apply IH. apply Hp.
  - done.
Qed.

(** X18: what [generateEmailContent] returns has been trimmed, so when
    it is not the empty string it does not start with a line break: the
    mail that [emailSending] builds from it has a subject that is not
    empty. *)
Theorem generated_content_has_subject (env : Env) (o : Oracle) (w : World)
    (recipient companyInfo email : JsValue) (content : string) :
  get_prop recipient "email" = inl email ->
  (exec o w (generateEmailContent env recipient companyInfo)).2 = Ret (JStr content) ->
  content <> "" ->
  exists subject text,
    mailOptions (JObj [("email", email); ("content", JStr content)])
    = inl (JObj [("from", JStr "your-email@gmail.com");
                 ("to", email);
                 ("subject", JStr subject);
                 ("text", JStr text)])
    /\ subject <> "".
Proof.
  intros Hemail Hrun Hne.
  assert (Htrimmed : exists s, content = trim s).
  { destruct (exec_task_inv _ _ (task_inv_generateEmailContent env recipient companyInfo)
                o w (JStr content) Hrun) as [s [= ->]].
    eauto. }
  destruct Htrimmed as [s ->].
  destruct (trim_head s) as [Hempty|(c & rest & Hs & Hc)]; [done|].
  rewrite Hs. unfold mailOptions. cbn.
  assert (Ascii.eqb c LF = false) as ->.
  { destruct (Ascii.eqb_spec c LF) as [->|]; [discriminate Hc|done]. }
  destruct (split_nonempty LF rest) as (seg & segs & ->). cbn.
  eexists _, _. split; [reflexivity|done].
Qed.

Lemma generated_content_has_subject_witness :
  exists subject text,
    mailOptions (JObj [("email", JStr "a@x.com");
                       ("content", JStr ("Subject A" +:+ String LF "Body line 1"
                                         +:+ String LF "Body line 2"))])
    = inl (JObj [("from", JStr "your-email@gmail.com");
                 ("to", JStr "a@x.com");
                 ("subject", JStr subject);
                 ("text", JStr text)])
    /\ subject <> "".
Proof.
  apply (generated_content_has_subject sample_env
           (fun _ _ => {| delay := 7; outcome := Resolved completion_a |}) fresh
           recipient_a acme_info (JStr "a@x.com")).
  - reflexivity.
  - vm_compute. reflexivity.
  - discriminate.
Defined.

(** ** The cache across requests *)

Lemma emailPromise_starts_cached env w recipient companyName :
  get_prop recipient "companyName" = inl companyName ->
  stringable companyName = true ->
  truthy (NodeCache_get (company_key companyName) w) = true ->
  exists p, advance w (emailPromise env recipient) = (w, Yield p).
Proof.
  intros Hname Hs Hhit. destruct (stringable_inv _ Hs) as [name Hstr].
  unfold company_key in Hhit. rewrite (string_of_eq companyName name Hstr) in Hhit.
  unfold emailPromise. rewrite Hname. cbn [lift bind].
  unfold await_async. rewrite fetchCompanyInfo_equation_1, Hstr.
  cbn [advance bind try_catch cache_get do_sync template].
  rewrite Hhit.
  cbn [advance bind try_catch]. eexists. reflexivity.
Qed.

Lemma spawn_cached env w rs names :
  Forall2 (fun recipient companyName =>
             get_prop recipient "companyName" = inl companyName
             /\ stringable companyName = true
             /\ truthy (NodeCache_get (company_key companyName) w) = true) rs names ->
  (spawn w (map (emailPromise env) rs)).1 = w
  /\ Forall (fun t => exists p, t = Yield p) (spawn w (map (emailPromise env) rs)).2.
Proof.
  induction 1 as [|r name rs names (Hname & Hs & Hhit) Hrest IH]; cbn [map spawn];
    [by split|].
  destruct (emailPromise_starts_cached env w r name Hname Hs Hhit) as [p ->].
  destruct IH as [Hw Hts].
  destruct (spawn w (map (emailPromise env) rs)) as [w2 ts]. cbn in *. subst w2.
  split; [done|]. constructor; eauto.
Qed.

Lemma joined_yielding t ts :
  Forall (fun t => exists p, t = Yield p) (t :: ts) -> joined (t :: ts) = None.
Proof.
  intros Hts. unfold joined.
  assert (first_thrown (t :: ts) = None) as ->.
  { induction Hts as [|t' ts' (p & ->) _ IH]; [done|exact IH]. }
  by inversion Hts as [|t' ts' (p & ->) _].
Qed.

(** X19: the cache serves every request of the process.  When
    [generateEmailController] is called for recipients whose company names
    have strings and the cache holds, for the company of every recipient,
    an unexpired truthy value (left there by an earlier request, say),
    starting the pipelines issues no external call at all and changes
    nothing: each pipeline has its company information within the turn and
    waits to go on to the completion. *)
Theorem generate_all_cached (env : Env) (w : World) (req : Request)
    (rs names : list JsValue) :
  get_prop (body req) "recipients" = inl (JArr rs) ->
  rs <> [] ->
  Forall2 (fun recipient companyName =>
             get_prop recipient "companyName" = inl companyName
             /\ stringable companyName = true
             /\ truthy (NodeCache_get (company_key companyName) w) = true) rs names ->
  world (boot w (generateEmailController env req)) = w
  /\ Forall (fun t => exists p, t = Yield p)
       (tasks (boot w (generateEmailController env req))).
Proof.
  intros Hrs Hne Hnames.
  assert (Hadv : advance w (generateEmailController env req)
                 = (w, All (map (emailPromise env) rs) generate_join)).
  { unfold generateEmailController. rewrite Hrs. by destruct rs. }
  unfold boot. rewrite Hadv.
  destruct (spawn_cached env w rs names Hnames) as [Hw Hts].
  destruct (spawn w (map (emailPromise env) rs)) as [w2 ts] eqn:Hspawn. cbn in Hw, Hts.
  subst w2.
  assert (ts <> []) as Hts_ne.
  { destruct rs as [|r rs']; [done|]. cbn in Hspawn.
    destruct (advance w (emailPromise env r)), (spawn w0 (map (emailPromise env) rs')).
    by injection Hspawn as _ <-. }
  destruct ts as [|t ts]; [done|].
  unfold rejoin. cbn [main tasks]. rewrite (joined_yielding t ts Hts). by split.
Qed.

Lemma generate_all_cached_witness :
  world (boot acme_cached
    (generateEmailController sample_env
       (generate_request (JArr [recipient_a; recipient_a]))))
  = acme_cached
  /\ Forall (fun t => exists p, t = Yield p)
       (tasks (boot acme_cached
          (generateEmailController sample_env
             (generate_request (JArr [recipient_a; recipient_a]))))).
Proof.
  apply (generate_all_cached sample_env acme_cached
           (generate_request (JArr [recipient_a; recipient_a]))
           [recipient_a; recipient_a] [JStr "Acme"; JStr "Acme"]).
  - reflexivity.
  - discriminate.
  - repeat constructor.
Defined.

(** ** One recipient, as a composition *)





